(** * Task consolidation engine of gmail-agent: a shallow embedding

    The development follows the JavaScript sources of the repository:
    - [aiService]   : [quickStringComparison], [compareTaskSimilarity],
                      [generateTaskId];
    - [taskService] : [getPriorityValue], [getHighestPriority],
                      [getEarliestDeadline], [createTask], [createParentTask],
                      [updateTask], [prioritizeTasks], [groupSimilarTasks];
    - [dbService]   : [getTasksByThreadId], [handleTaskCreated].

    Conventions of the embedding.
    - A JavaScript string is a [string] of code units below 128 (ASCII).
      [toLowerCase], [trim] and the regular expression classes [\s] and [\w]
      are modelled on that range; a code unit of 128 or more is treated as
      neither a letter, a word character nor white space.
    - A JavaScript number is a [JSNum]: NaN, the two infinities or an exact
      rational.  The only arithmetic the modelled code performs on fractions
      is one division of two set sizes and comparisons with the literals
      [0.3], [0.9], [0], [1] and [0.8]; for sizes below 2^49 the IEEE-754
      result of those comparisons agrees with the exact one, because two
      distinct fractions [a/b] and [c/10] differ by at least [1/(10 b)].
    - A value that may be [undefined] or [null] is an [option].
    - An asynchronous function that may reject is a function returning a
      [Completion]. *)

From Stdlib Require Import ZArith QArith String Ascii List Bool Lia.
From stdpp Require Import gmap strings list.

Open Scope string_scope.

(** ** JavaScript values *)

Module JS.

(** Outcome of a call: a returned value, or a thrown exception (a rejected
    promise for an [async] function). *)
Inductive Error :=
| TypeError (msg : string)
| ReferenceError (msg : string)
| OtherError (msg : string).

Inductive Completion (A : Type) :=
| Returned (a : A)
| Thrown (e : Error).
Arguments Returned {A} a.
Arguments Thrown {A} e.

Inductive JSNum :=
| NaN
| PInf
| NInf
| Fin (q : Q).

(** [a / b] on two non-negative integers. *)
Definition div (a b : nat) : JSNum :=
  match b with
  | O => match a with O => NaN | _ => PInf end
  | S _ => Fin (Z.of_nat a # Pos.of_nat b)
  end.

(** [x < y]; every comparison with NaN is false. *)
Definition lt (x y : JSNum) : bool :=
  match x, y with
  | NaN, _ | _, NaN => false
  | PInf, _ => false
  | _, NInf => false
  | NInf, _ => true
  | _, PInf => true
  | Fin p, Fin q => negb (Qle_bool q p)
  end.

Definition gt (x y : JSNum) : bool := lt y x.

Definition isNaN (x : JSNum) : bool :=
  match x with NaN => true | _ => false end.

(** [o || d] on a string that may be undefined: the empty string is falsy. *)
Definition or_str (o : option string) (d : string) : string :=
  match o with
  | Some (String c r) => String c r
  | _ => d
  end.

(** Truthiness of a string that may be undefined or null. *)
Definition truthy_str (o : option string) : bool :=
  match o with
  | Some (String _ _) => true
  | _ => false
  end.

(** *** Character classes *)

Local Open Scope nat_scope.

Definition code (c : ascii) : nat := nat_of_ascii c.

(** [\s] restricted to ASCII: TAB, LF, VT, FF, CR and SPACE. *)
Definition isSpace (c : ascii) : bool :=
  let n := code c in
  ((9 <=? n) && (n <=? 13)) || (n =? 32).

Definition isUpper (c : ascii) : bool :=
  let n := code c in (65 <=? n) && (n <=? 90).

(** [\w] is [A-Za-z0-9_]. *)
Definition isWord (c : ascii) : bool :=
  let n := code c in
  ((65 <=? n) && (n <=? 90)) || ((97 <=? n) && (n <=? 122))
  || ((48 <=? n) && (n <=? 57)) || (n =? 95).

Definition lowerChar (c : ascii) : ascii :=
  if isUpper c then ascii_of_nat (code c + 32) else c.

(** *** String methods *)

Fixpoint toLowerCase (s : string) : string :=
  match s with
  | EmptyString => EmptyString
  | String c r => String (lowerChar c) (toLowerCase r)
  end.

Definition isLower (c : ascii) : bool :=
  let n := code c in (97 <=? n) && (n <=? 122).

Definition upperChar (c : ascii) : ascii :=
  if isLower c then ascii_of_nat (code c - 32) else c.

Fixpoint toUpperCase (s : string) : string :=
  match s with
  | EmptyString => EmptyString
  | String c r => String (upperChar c) (toUpperCase r)
  end.

Fixpoint trimStart (s : string) : string :=
  match s with
  | EmptyString => EmptyString
  | String c r => if isSpace c then trimStart r else s
  end.

Fixpoint trimEnd (s : string) : string :=
  match s with
  | EmptyString => EmptyString
  | String c r =>
      match trimEnd r with
      | EmptyString => if isSpace c then EmptyString else String c EmptyString
      | r' => String c r'
      end
  end.

Definition trim (s : string) : string := trimEnd (trimStart s).

(** [s.replace(/[^\w\s]/g, "")]: keep word characters and white space. *)
Fixpoint stripPunctuation (s : string) : string :=
  match s with
  | EmptyString => EmptyString
  | String c r =>
      if isWord c || isSpace c then String c (stripPunctuation r)
      else stripPunctuation r
  end.

(** [s.replace(/\s+/g, " ")]: every maximal run of white space becomes one
    space.  [inRun] tells that the previous character was white space. *)
Fixpoint collapseFrom (inRun : bool) (s : string) : string :=
  match s with
  | EmptyString => EmptyString
  | String c r =>
      if isSpace c then
        if inRun then collapseFrom true r
        else String " "%char (collapseFrom true r)
      else String c (collapseFrom false r)
  end.

Definition collapseWhitespace (s : string) : string := collapseFrom false s.

(** [s.split(/\s+/)]: the pieces between maximal runs of white space; a
    run at either end of the string leaves an empty piece there, and the
    empty string splits into one empty piece. *)
Fixpoint splitFrom (inRun : bool) (s : string) : list string :=
  match s with
  | EmptyString => [EmptyString]
  | String c r =>
      if isSpace c then
        if inRun then splitFrom true r
        else EmptyString :: splitFrom true r
      else
        match splitFrom false r with
        | w :: ws => String c w :: ws
        | [] => [String c EmptyString]
        end
  end.

Definition splitWhitespace (s : string) : list string := splitFrom false s.

(** [parts.join(sep)] on strings. *)
Fixpoint join (sep : string) (parts : list string) : string :=
  match parts with
  | [] => EmptyString
  | [p] => p
  | p :: rest => p ++ sep ++ join sep rest
  end.

(** [s.substring(0, n)]. *)
Definition prefix (n : nat) (s : string) : string := String.substring 0 n s.

End JS.

Import JS.

(** ** aiService *)

Module AIService.

(** The [normalize] closure of [quickStringComparison]. *)
Definition normalize (str : string) : string :=
  stripPunctuation (toLowerCase str).

Definition wordSet (s : string) : gset string :=
  list_to_set (splitWhitespace s).

(** Token-set Jaccard similarity. *)
Definition quickStringComparison (str1 str2 : string) : JSNum :=
  let s1 := normalize str1 in
  let s2 := normalize str2 in
  let words1 := wordSet s1 in
  let words2 := wordSet s2 in
  let intersection := filter (λ x, x ∈ words2) words1 in
  let union := words1 ∪ words2 in
  JS.div (size intersection) (size union).

(** [quickStringComparison] on arguments that may be undefined: reading
    [str.toLowerCase] of undefined throws a TypeError. *)
Definition quickStringComparison_js (str1 str2 : option string)
  : Completion JSNum :=
  match str1, str2 with
  | Some s1, Some s2 => Returned (quickStringComparison s1 s2)
  | _, _ => Thrown (TypeError "Cannot read properties of undefined")
  end.

(** The prompt sent to the model by [compareTaskSimilarity]. *)
Definition nl : string := String (ascii_of_nat 10) EmptyString.

Definition similarityPrompt (task1 task2 : string) : string :=
  "Compare these tasks for similarity:" ++ nl ++ nl
  ++ "Task 1: " ++ task1 ++ nl
  ++ "Task 2: " ++ task2 ++ nl ++ nl
  ++ "Consider:" ++ nl
  ++ "1. Core objective similarity" ++ nl
  ++ "2. Required actions similarity" ++ nl
  ++ "3. Context and scope overlap" ++ nl
  ++ "4. Dependencies and relationships" ++ nl ++ nl
  ++ "Return ONLY a number between 0 and 1, where:" ++ nl
  ++ "1.0 = identical tasks" ++ nl
  ++ "0.0 = completely different tasks" ++ nl
  ++ ">0.8 = very similar tasks" ++ nl
  ++ ">0.5 = somewhat related tasks" ++ nl
  ++ "<0.3 = different tasks".

(** The test that rejects the score of the classifier:
    [isNaN(score) || score < 0 || score > 1]. *)
Definition invalidScore (score : JSNum) : bool :=
  isNaN score || JS.lt score (Fin 0) || JS.gt score (Fin 1).

(** What [this.model.invoke] does with a prompt: it throws, or it answers
    a message whose [content] is a string.  An answer of another shape makes
    [response.content.trim()] throw, which the code handles as a failed
    call. *)
Inductive ModelReply :=
| ModelFails (e : Error)
| ModelContent (content : string).

Section Classifier.

(** The semantic classifier and the built-in [parseFloat] are the two
    collaborators of [compareTaskSimilarity]. *)
Variable model : string → ModelReply.
Variable parseFloat : string → JSNum.

(** The [catch] block of [compareTaskSimilarity]. *)
Definition compareFallback (task1Description task2Description : option string)
  : Completion JSNum :=
  Returned (quickStringComparison (or_str task1Description "")
                                  (or_str task2Description "")).

(** [compareTaskSimilarity]: the list of prompts on which the classifier
    was invoked, and the completion of the call. *)
Definition compareTaskSimilarity (task1Description task2Description : option string)
  : list string * Completion JSNum :=
  match quickStringComparison_js task1Description task2Description with
  | Thrown _ => ([], compareFallback task1Description task2Description)
  | Returned quickSimilarity =>
      if JS.lt quickSimilarity (Fin (3 # 10)) then ([], Returned (Fin 0))
      else if JS.gt quickSimilarity (Fin (9 # 10)) then ([], Returned (Fin 1))
      else
        let formattedPrompt :=
          similarityPrompt (or_str task1Description "")
                           (or_str task2Description "") in
        match model formattedPrompt with
        | ModelFails _ =>
            ([formattedPrompt],
             compareFallback task1Description task2Description)
        | ModelContent content =>
            let similarityScore := parseFloat (trim content) in
            if invalidScore similarityScore
            then ([formattedPrompt], Returned quickSimilarity)
            else ([formattedPrompt], Returned similarityScore)
        end
  end.

End Classifier.

Section TaskId.

(** [crypto.createHash("sha256").update(s).digest("hex")]. *)
Variable sha256_hex : string → string.

Record IdInput := {
  in_description : string;
  in_threadId : option string;
  in_deadline : option string;
  in_priority : option string
}.

Definition normalizedDescription (description : string) : string :=
  collapseWhitespace (trim (toLowerCase description)).

Definition generateTaskId (task : IdInput) : string :=
  let components :=
    [ or_str (in_threadId task) "";
      normalizedDescription (in_description task);
      or_str (in_deadline task) "";
      or_str (in_priority task) "" ] in
  let hash := sha256_hex (join "::" components) in
  "task_" ++ prefix 12 hash.

End TaskId.

End AIService.

(** ** The built-in [Date] *)

Module JSDate.

Local Open Scope Z_scope.

(** The time value of a [Date]: milliseconds since the epoch, NaN for an
    invalid date; [TVInf] is the [+Infinity] that [Math.min()] returns on
    no argument. *)
Inductive TimeValue :=
| TVNaN
| TVInf
| TV (t : Z).

Definition msPerDay : Z := 86400000.

(** Days since the epoch of a proleptic Gregorian date. *)
Definition daysFromCivil (y m d : Z) : Z :=
  let y' := if m <=? 2 then y - 1 else y in
  let era := y' / 400 in
  let yoe := y' - era * 400 in
  let mp := if 2 <? m then m - 3 else m + 9 in
  let doy := (153 * mp + 2) / 5 + d - 1 in
  let doe := yoe * 365 + yoe / 4 - yoe / 100 + doy in
  era * 146097 + doe - 719468.

(** Year, month and day of a number of days since the epoch. *)
Definition civilFromDays (z : Z) : Z * Z * Z :=
  let z' := z + 719468 in
  let era := z' / 146097 in
  let doe := z' - era * 146097 in
  let yoe := (doe - doe / 1460 + doe / 36524 - doe / 146096) / 365 in
  let doy := doe - (365 * yoe + yoe / 4 - yoe / 100) in
  let mp := (5 * doy + 2) / 153 in
  let d := doy - (153 * mp + 2) / 5 + 1 in
  let m := if mp <? 10 then mp + 3 else mp - 9 in
  let y := yoe + era * 400 in
  (if m <=? 2 then y + 1 else y, m, d).

Definition isLeap (y : Z) : bool :=
  ((y mod 4 =? 0) && negb (y mod 100 =? 0)) || (y mod 400 =? 0).

Definition daysInMonth (y m : Z) : Z :=
  if m =? 2 then (if isLeap y then 29 else 28)
  else if (m =? 4) || (m =? 6) || (m =? 9) || (m =? 11) then 30
  else 31.

(** *** Decimal digits *)

Definition digitChar (n : Z) : ascii := ascii_of_nat (48 + Z.to_nat n).

(** The [width] low decimal digits of [n], most significant first. *)
Fixpoint pad (width : nat) (n : Z) : string :=
  match width with
  | O => EmptyString
  | S w => pad w (n / 10) ++ String (digitChar (n mod 10)) EmptyString
  end.

Definition digitValue (c : ascii) : option Z :=
  let n := Z.of_nat (nat_of_ascii c) in
  if (48 <=? n) && (n <=? 57) then Some (n - 48) else None.

(** Value of a string of decimal digits; [None] on any other character
    and on the empty string. *)
Fixpoint digitsFrom (acc : Z) (s : string) : option Z :=
  match s with
  | EmptyString => Some acc
  | String c r =>
      match digitValue c with
      | Some v => digitsFrom (10 * acc + v) r
      | None => None
      end
  end.

Definition digits (s : string) : option Z :=
  match s with
  | EmptyString => None
  | _ => digitsFrom 0 s
  end.

(** *** [Date.prototype.toISOString] *)

Definition yearString (y : Z) : string :=
  if (0 <=? y) && (y <=? 9999) then pad 4 y
  else if y <? 0 then "-" ++ pad 6 (- y)
  else "+" ++ pad 6 y.

Definition toISOString (t : Z) : string :=
  let day := t / msPerDay in
  let ms := t mod msPerDay in
  let '(y, m, d) := civilFromDays day in
  yearString y ++ "-" ++ pad 2 m ++ "-" ++ pad 2 d ++ "T"
  ++ pad 2 (ms / 3600000) ++ ":" ++ pad 2 (ms / 60000 mod 60) ++ ":"
  ++ pad 2 (ms / 1000 mod 60) ++ "." ++ pad 3 (ms mod 1000) ++ "Z".

(** *** [Date.parse] on the date-only form

    [Date.parse] is specified for the ISO format only and is left to the
    implementation elsewhere, so the functions below take the parser as a
    parameter.  [parseDateOnly] is the specified behaviour on the form
    [YYYY-MM-DD], which denotes midnight UTC; it answers NaN on every
    other string. *)
Definition parseDateOnly (s : string) : TimeValue :=
  if (String.length s =? 10)%nat then
    match digits (String.substring 0 4 s),
          String.substring 4 1 s,
          digits (String.substring 5 2 s),
          String.substring 7 1 s,
          digits (String.substring 8 2 s) with
    | Some y, "-", Some m, "-", Some d =>
        if (1 <=? m) && (m <=? 12) && (1 <=? d) && (d <=? daysInMonth y m)
        then TV (daysFromCivil y m d * msPerDay)
        else TVNaN
    | _, _, _, _, _ => TVNaN
    end
  else TVNaN.

(** [isNaN(date.getTime())]. *)
Definition isInvalid (v : TimeValue) : bool :=
  match v with TV _ => false | _ => true end.

(** [Math.min(a, b)] on time values. *)
Definition min2 (a b : TimeValue) : TimeValue :=
  match a, b with
  | TVNaN, _ | _, TVNaN => TVNaN
  | TVInf, x | x, TVInf => x
  | TV x, TV y => TV (Z.min x y)
  end.

(** [Math.min(...xs)]: [+Infinity] on no argument. *)
Definition Math_min (xs : list TimeValue) : TimeValue :=
  fold_left min2 xs TVInf.

End JSDate.

Import JSDate.

(** ** Tasks

    The keys of a task object that the modelled functions read or write.
    [id] and the optional strings are falsy when empty or absent; the keys
    [from], [subject], [context], [comments], [createdAt] and [updatedAt]
    are carried along by the code but never inspected by it, and are left
    out.  Every key below is present on an object built by [createTask], so
    the spread [{...task, ...updatedData}] of two such objects takes each of
    them from [updatedData]. *)

Record Task := mkTask {
  id : string;
  description : string;
  priority : string;
  deadline : option string;
  dependencies : list string;
  emailId : option string;
  threadId : option string;
  status : option string;
  parentTaskId : option string;
  isSubtask : bool;
  isParent : bool;
  childTaskIds : list string
}.

Definition with_id (v : string) (t : Task) : Task :=
  mkTask v (description t) (priority t) (deadline t) (dependencies t)
         (emailId t) (threadId t) (status t) (parentTaskId t) (isSubtask t)
         (isParent t) (childTaskIds t).

Definition with_priority (v : string) (t : Task) : Task :=
  mkTask (id t) (description t) v (deadline t) (dependencies t)
         (emailId t) (threadId t) (status t) (parentTaskId t) (isSubtask t)
         (isParent t) (childTaskIds t).

Definition with_status (v : option string) (t : Task) : Task :=
  mkTask (id t) (description t) (priority t) (deadline t) (dependencies t)
         (emailId t) (threadId t) v (parentTaskId t) (isSubtask t)
         (isParent t) (childTaskIds t).

Definition with_provenance (e th : option string) (t : Task) : Task :=
  mkTask (id t) (description t) (priority t) (deadline t) (dependencies t)
         e th (status t) (parentTaskId t) (isSubtask t)
         (isParent t) (childTaskIds t).

(** [a || b] on two optional strings. *)
Definition or_opt (a b : option string) : option string :=
  if truthy_str a then a else b.

(** One element of [taskExtractionResults]: the tasks extracted from one
    message. *)
Record ExtractionResult := mkResult { tasks : list Task }.

(** A task as the extraction pipeline hands it over: pending, without
    parent or children. *)
Definition pendingTask (id description priority : string)
    (deadline : option string) (dependencies : list string)
    (threadId : option string) : Task :=
  {| id := id; description := description; priority := priority;
     deadline := deadline; dependencies := dependencies;
     emailId := None; threadId := threadId; status := Some "PENDING";
     parentTaskId := None; isSubtask := false; isParent := false;
     childTaskIds := [] |}.

(** ** taskService *)

Module TaskService.

Inductive Event :=
| TaskCreated (task : Task)
| TaskUpdated (task oldTask : Task).

(** The fields of the service object, and the events it has emitted. *)
Record State := mkState {
  tasksMap : gmap string Task;
  tasksByEmail : gmap string (list string);
  similarityCache : gmap string JSNum;
  emitted : list Event
}.

Definition set_tasksMap (m : gmap string Task) (st : State) : State :=
  mkState m (tasksByEmail st) (similarityCache st) (emitted st).

Definition set_tasksByEmail (m : gmap string (list string)) (st : State) : State :=
  mkState (tasksMap st) m (similarityCache st) (emitted st).

Definition set_similarityCache (m : gmap string JSNum) (st : State) : State :=
  mkState (tasksMap st) (tasksByEmail st) m (emitted st).

Definition emit (e : Event) (st : State) : State :=
  mkState (tasksMap st) (tasksByEmail st) (similarityCache st)
          (emitted st ++ [e]).

(** *** Methods as state transformers that may throw

    The state a method has reached when it throws is kept: the writes made
    before the exception are not undone. *)
Definition M (A : Type) : Type := State → State * Completion A.

Definition ret {A} (a : A) : M A := λ st, (st, Returned a).

Definition throw {A} (e : Error) : M A := λ st, (st, Thrown e).

Definition bind {A B} (m : M A) (k : A → M B) : M B :=
  λ st, match m st with
        | (st', Returned a) => k a st'
        | (st', Thrown e) => (st', Thrown e)
        end.

Notation "'let!' x ':=' m 'in' k" := (bind m (λ x, k))
  (at level 10, x name, m at level 100, k at level 200).
Notation "'do!' m 'in' k" := (bind m (λ _, k))
  (at level 10, m at level 100, k at level 200).

Definition modify (f : State → State) : M unit := λ st, (f st, Returned tt).

Definition gets {A} (f : State → A) : M A := λ st, (st, Returned (f st)).

(** [for (const x of l) { await body(x) }]. *)
Fixpoint forEach {A} (body : A → M unit) (l : list A) : M unit :=
  match l with
  | [] => ret tt
  | x :: rest => do! body x in forEach body rest
  end.

(** *** Priorities *)

Definition priorityMap : gmap string nat :=
  list_to_map [("HIGH", 0%nat); ("MEDIUM", 1%nat); ("LOW", 2%nat)].

(** [v || d] on an own-property lookup that yields a number or undefined:
    both undefined and [0] are falsy. *)
Definition or_num (v : option nat) (d : nat) : nat :=
  match v with
  | Some (S n) => S n
  | Some O => d
  | None => d
  end.

(** [priorityMap[priority] || 3].  Names of members inherited from
    [Object.prototype] are not priorities and are outside the model. *)
Definition getPriorityValue (priority : string) : nat :=
  or_num (priorityMap !! priority) 3.

(** [tasks.reduce((highest, task) => ..., "LOW")]. *)
Definition getHighestPriority (tasks : list Task) : string :=
  fold_left
    (λ highest task,
       if (getPriorityValue (priority task) <? getPriorityValue highest)%nat
       then priority task
       else highest)
    tasks "LOW".

Section Deadlines.

(** [new Date(d).getTime()] on a string. *)
Variable DateParse : string → TimeValue.

(** The predicate of the filter: [d && !isNaN(new Date(d).getTime())]. *)
Definition validDeadline (d : option string) : bool :=
  match d with
  | Some s => truthy_str d && negb (isInvalid (DateParse s))
  | None => false
  end.

Definition deadlineTime (d : option string) : TimeValue :=
  match d with
  | Some s => DateParse s
  | None => TV 0
  end.

(** [getEarliestDeadline]; [deadlineTime] is only applied to deadlines
    that passed the filter, which are strings.  Nothing in the [try]
    block throws on a list of tasks, so the [catch] block is not
    reached. *)
Definition getEarliestDeadline (tasks : list Task) : option string :=
  let validDeadlines := filter (λ d, validDeadline d = true) (map deadline tasks) in
  match validDeadlines with
  | [] => None
  | _ =>
      let earliestDate := Math_min (map deadlineTime validDeadlines) in
      match earliestDate with
      | TV t => Some (toISOString t)
      | _ => None
      end
  end.

(** The time values of the members' deadlines that are present and
    that the parser accepts, in the order of the members. *)
Definition validDeadlineTimes (tasks : list Task) : list Z :=
  omap (λ task,
          match deadline task with
          | Some (String c r) =>
              match DateParse (String c r) with
              | TV t => Some t
              | _ => None
              end
          | _ => None
          end)
       tasks.

End Deadlines.

(** *** Creating tasks *)

(** [createTask]; [generated] is the identifier made from [Date.now()] and
    [Math.random()], used when [taskData.id] is falsy.  [ownId] tells
    whether [taskData] has an own key [id], whose value is then
    [id taskData]; without the key, [taskData.id] is undefined.  The task is
    [{id: taskId, ...taskData, ...}]: an own key [id] of [taskData]
    overwrites [taskId], also when its value is the empty string, while the
    indexes are written under [taskId].  The listeners of ["task:created"]
    are asynchronous, so [emit] does not throw. *)
Definition createTask (generated : string) (ownId : bool) (taskData : Task)
  : M Task :=
  let taskId :=
    or_str (if ownId then Some (id taskData) else None) generated in
  let task :=
    with_status (Some (or_str (status taskData) "PENDING"))
                (if ownId then taskData else with_id taskId taskData) in
  do! modify (λ st, set_tasksMap (<[taskId := task]> (tasksMap st)) st) in
  do! match emailId task with
      | Some (String c r) =>
          let e := String c r in
          modify (λ st,
            let emailTasks := default [] (tasksByEmail st !! e) in
            set_tasksByEmail (<[e := (emailTasks ++ [taskId])%list]> (tasksByEmail st)) st)
      | _ => ret tt
      end in
  do! modify (emit (TaskCreated task)) in
  ret task.

Section ParentTask.

Variable DateParse : string → TimeValue.

(** [aiService.generateParentTaskDescription]; it catches its own
    failures and answers a templated description then. *)
Variable generateParentTaskDescription : list Task → string.

(** The [try] block of [createParentTask].  With tasks as members none
    of its steps throws, so the [catch] block (a parent of priority
    ["MEDIUM"] without deadline) is not reached.  The object handed to
    [createTask] has no key [id]. *)
Definition createParentTask (generated : string) (taskGroup : list Task)
  : M Task :=
  let parentDescription := generateParentTaskDescription taskGroup in
  let deadline := getEarliestDeadline DateParse taskGroup in
  let priority := getHighestPriority taskGroup in
  let parentTask :=
    {| id := EmptyString;
       description := parentDescription;
       priority := priority;
       deadline := deadline;
       dependencies := [];
       emailId := None;
       threadId := None;
       status := Some "PENDING";
       parentTaskId := None;
       isSubtask := false;
       isParent := true;
       childTaskIds := map id taskGroup |} in
  createTask generated false parentTask.

End ParentTask.

(** *** Updating tasks *)

Section Update.

(** [dbService.getTaskById], which answers [null] on a miss and on a
    failure.  The handlers of the durable store only write rows of tasks
    that are in [this.tasks] already, and [updateTask] consults the
    store only for an identifier that is not, so the store is read-only
    as far as [updateTask] can tell. *)
Variable getTaskById : string → option Task.

Definition loadTaskFromDb (taskId : string) : M (option Task) :=
  match getTaskById taskId with
  | Some task =>
      do! modify (λ st, set_tasksMap (<[taskId := task]> (tasksMap st)) st) in
      ret (Some task)
  | None => ret None
  end.

(** [updateTask].  A task read back from the durable store carries its
    provenance under the column names [email_id] and [thread_id]; the two
    spellings of each key are one field here. *)
Definition updateTask (taskId : string) (updatedData : Task) : M Task :=
  let! found := gets (λ st, tasksMap st !! taskId) in
  let! task :=
    match found with
    | Some task => ret task
    | None =>
        let! loaded := loadTaskFromDb taskId in
        match loaded with
        | Some task => ret task
        | None => throw (OtherError ("Task " ++ taskId ++ " not found"))
        end
    end in
  let updatedTask :=
    with_provenance (or_opt (emailId updatedData) (emailId task))
                    (or_opt (threadId updatedData) (threadId task))
                    updatedData in
  do! modify (λ st, set_tasksMap (<[taskId := updatedTask]> (tasksMap st)) st) in
  do! modify (emit (TaskUpdated updatedTask task)) in
  ret updatedTask.

Definition allTasksOf (taskExtractionResults : list ExtractionResult)
  : list Task :=
  flat_map tasks taskExtractionResults.

(** [task.dependencies.includes(t.description)]. *)
Definition includes (l : list string) (s : string) : bool :=
  bool_decide (s ∈ l).

(** The body of the inner loop of [prioritizeTasks]. *)
Definition escalate (task depTask : Task) : M unit :=
  if (getPriorityValue (priority task) <? getPriorityValue (priority depTask))%nat
  then do! updateTask (id depTask) (with_priority (priority task) depTask) in
       ret tt
  else ret tt.

Definition prioritizeTasks (taskExtractionResults : list ExtractionResult)
  : M unit :=
  let allTasks := allTasksOf taskExtractionResults in
  forEach
    (λ task,
       match dependencies task with
       | [] => ret tt
       | _ =>
           let dependentTasks :=
             filter (λ t, includes (dependencies task) (description t) = true)
                    allTasks in
           forEach (escalate task) dependentTasks
       end)
    allTasks.

(** *** The updates of one run, in the order the loops issue them

    The loops of [prioritizeTasks] read priorities from the objects of
    the batch only, which no step of the run writes, so the calls to
    [updateTask] are determined by the batch. *)
Definition updatesFor (allTasks : list Task) (task : Task)
  : list (string * Task) :=
  match dependencies task with
  | [] => []
  | _ =>
      flat_map
        (λ depTask,
           if (getPriorityValue (priority task)
               <? getPriorityValue (priority depTask))%nat
           then [(id depTask, with_priority (priority task) depTask)]
           else [])
        (filter (λ t, includes (dependencies task) (description t) = true)
                allTasks)
  end.

Definition updatesOf (taskExtractionResults : list ExtractionResult)
  : list (string * Task) :=
  let allTasks := allTasksOf taskExtractionResults in
  flat_map (updatesFor allTasks) allTasks.

Definition applyUpdate (u : string * Task) : M unit :=
  do! updateTask u.1 u.2 in ret tt.

Definition applyUpdates (us : list (string * Task)) : M unit :=
  forEach applyUpdate us.

End Update.

(** The priority that the last update of [taskId] in [us] writes, if [us]
    updates [taskId] at all. *)
Fixpoint lastUpdate (taskId : string) (us : list (string * Task))
  : option string :=
  match us with
  | [] => None
  | u :: rest =>
      match lastUpdate taskId rest with
      | Some p => Some p
      | None => if decide (taskId = u.1) then Some (priority u.2) else None
      end
  end.

(** Ranks of urgency as the data model orders them: a smaller rank is
    more urgent. *)
Definition rank (priority : string) : option nat := priorityMap !! priority.

(** *** Grouping similar tasks *)

(** [[taskId1, taskId2].sort().join("_")]; the default sort orders strings
    by code units. *)
Definition getSimilarityCacheKey (taskId1 taskId2 : string) : string :=
  if String.leb taskId1 taskId2
  then join "_" [taskId1; taskId2]
  else join "_" [taskId2; taskId1].

Record Comparison := mkComparison {
  c_task : Task;
  c_otherTask : Task;
  c_cacheKey : string
}.

(** [l.slice(0, n) :: l.slice(n, 2n) :: ...], as the loop
    [for (j = 0; j < l.length; j += n)] takes them. *)
Fixpoint batchesFuel {A} (fuel n : nat) (l : list A) : list (list A) :=
  match fuel with
  | O => []
  | S fuel' =>
      match l with
      | [] => []
      | _ => take n l :: batchesFuel fuel' n (drop n l)
      end
  end.

Definition batches {A} (n : nat) (l : list A) : list (list A) :=
  batchesFuel (length l) n l.

(** The names bound where an identifier of the [catch] block of
    [groupSimilarTasks] is resolved: the exception, the parameter of the
    method and the constants of the module.  [groups], [processedTasks],
    [allTasks], [batchSize] and [similarities] are declared with [const]
    inside the [try] block and are bound in that block only. *)
Definition catchScope : list string :=
  ["error"; "taskExtractionResults"; "EventEmitter"; "logger";
   "emailService"; "aiService"; "dbService"; "TaskService"].

(** Reading an identifier: a name that is not bound throws. *)
Definition resolveIdentifier {A} (scope : list string) (name : string)
    (value : A) : Completion A :=
  if bool_decide (name ∈ scope) then Returned value
  else Thrown (ReferenceError (name ++ " is not defined")).

Section Grouping.

(** [aiService.compareTaskSimilarity] as [taskService] calls it: an
    asynchronous call that answers a score or rejects. *)
Variable compareTaskSimilarity : string → string → Completion JSNum.

(** The inner loop over [j]: pairs whose score is cached go to
    [similarities], the others are queued. *)
Fixpoint collectComparisons (processedTasks : gset string)
    (cache : gmap string JSNum) (task : Task) (others : list Task)
    (similarities : gmap string JSNum)
  : gmap string JSNum * list Comparison :=
  match others with
  | [] => (similarities, [])
  | otherTask :: rest =>
      if bool_decide (id otherTask ∈ processedTasks)
      then collectComparisons processedTasks cache task rest similarities
      else
        let cacheKey := getSimilarityCacheKey (id task) (id otherTask) in
        match cache !! cacheKey with
        | Some v =>
            collectComparisons processedTasks cache task rest
                               (<[cacheKey := v]> similarities)
        | None =>
            let '(sims, queued) :=
              collectComparisons processedTasks cache task rest similarities in
            (sims, mkComparison task otherTask cacheKey :: queued)
        end
  end.

(** [Promise.all(batch.map(...))]: all the scores, or the rejection of
    the first comparison of the batch that rejects. *)
Fixpoint compareBatch (batch : list Comparison)
  : Completion (list (string * JSNum)) :=
  match batch with
  | [] => Returned []
  | c :: rest =>
      match compareTaskSimilarity (description (c_task c))
                                  (description (c_otherTask c)) with
      | Thrown e => Thrown e
      | Returned similarity =>
          match compareBatch rest with
          | Thrown e => Thrown e
          | Returned results => Returned ((c_cacheKey c, similarity) :: results)
          end
      end
  end.

Definition storeResults (results : list (string * JSNum))
    (m : gmap string JSNum) : gmap string JSNum :=
  fold_left (λ acc r, <[r.1 := r.2]> acc) results m.

(** One batch: the comparisons, then the writes to the cache and to
    [similarities]. *)
Definition processBatch (similarities : gmap string JSNum)
    (batch : list Comparison) : M (gmap string JSNum) :=
  match compareBatch batch with
  | Thrown e => throw e
  | Returned results =>
      do! modify (λ st,
            set_similarityCache (storeResults results (similarityCache st)) st) in
      ret (storeResults results similarities)
  end.

Fixpoint processBatches (similarities : gmap string JSNum)
    (bs : list (list Comparison)) : M (gmap string JSNum) :=
  match bs with
  | [] => ret similarities
  | batch :: rest =>
      let! similarities' := processBatch similarities batch in
      processBatches similarities' rest
  end.

(** The first loop, over the tasks from index [i] on. *)
Fixpoint precompute (processedTasks : gset string) (batchSize : nat)
    (remaining : list Task) (similarities : gmap string JSNum)
  : M (gmap string JSNum) :=
  match remaining with
  | [] => ret similarities
  | task :: others =>
      if bool_decide (id task ∈ processedTasks)
      then precompute processedTasks batchSize others similarities
      else
        let! cache := gets similarityCache in
        let '(sims, comparisons) :=
          collectComparisons processedTasks cache task others similarities in
        let! sims' := processBatches sims (batches batchSize comparisons) in
        precompute processedTasks batchSize others sims'
  end.

(** [similarities.get(key) > 0.8]; undefined compares false. *)
Definition isSimilar (similarities : gmap string JSNum) (key : string) : bool :=
  match similarities !! key with
  | Some v => JS.gt v (Fin (8 # 10))
  | None => false
  end.

(** The second loop: the groups so far and the identifiers already
    placed. *)
Fixpoint buildGroups (allTasks : list Task) (similarities : gmap string JSNum)
    (remaining : list Task) (groups : list (list Task))
    (processedTasks : gset string) : list (list Task) :=
  match remaining with
  | [] => groups
  | task :: rest =>
      if bool_decide (id task ∈ processedTasks)
      then buildGroups allTasks similarities rest groups processedTasks
      else
        let similarTasks :=
          filter (λ otherTask,
                    (negb (bool_decide (id otherTask = id task)
                           || bool_decide (id otherTask ∈ processedTasks))
                     && isSimilar similarities
                          (getSimilarityCacheKey (id task) (id otherTask)))
                    = true)
                 allTasks in
        match similarTasks with
        | [] =>
            buildGroups allTasks similarities rest
                        (groups ++ [[task]]) ({[id task]} ∪ processedTasks)
        | _ =>
            buildGroups allTasks similarities rest
                        (groups ++ [task :: similarTasks])
                        (list_to_set (map id similarTasks)
                         ∪ {[id task]} ∪ processedTasks)
        end
  end.

(** The [try] block of [groupSimilarTasks]. *)
Definition groupSimilarTasks_try (taskExtractionResults : list ExtractionResult)
  : M (list (list Task)) :=
  let groups : list (list Task) := [] in
  let processedTasks : gset string := ∅ in
  let allTasks := allTasksOf taskExtractionResults in
  let batchSize := 5%nat in
  let! similarities := precompute processedTasks batchSize allTasks ∅ in
  ret (buildGroups allTasks similarities allTasks groups processedTasks).

(** The [catch] block: [return allTasks.map((task) => [task])], with
    [allTasks] resolved where the block stands. *)
Definition groupSimilarTasks_catch (taskExtractionResults : list ExtractionResult)
    (error : Error) : M (list (list Task)) :=
  match resolveIdentifier catchScope "allTasks"
                          (allTasksOf taskExtractionResults) with
  | Returned allTasks => ret (map (λ task, [task]) allTasks)
  | Thrown e => throw e
  end.

Definition groupSimilarTasks (taskExtractionResults : list ExtractionResult)
  : M (list (list Task)) :=
  λ st,
    match groupSimilarTasks_try taskExtractionResults st with
    | (st', Returned groups) => (st', Returned groups)
    | (st', Thrown error) =>
        groupSimilarTasks_catch taskExtractionResults error st'
    end.

End Grouping.

End TaskService.

(** ** dbService *)

Module DBService.

(** A row of the table [tasks]; [None] is SQL NULL.  [id] is the primary
    key. *)
Record Row := mkRow {
  r_id : string;
  r_email_id : option string;
  r_thread_id : option string;
  r_description : string;
  r_deadline : option string;
  r_priority : string;
  r_status : option string;
  r_parent_task_id : option string;
  r_is_subtask : bool;
  r_is_parent : bool
}.

(** The table, in the order of insertion. *)
Abbreviation Table := (list Row).

(** [x || null]. *)
Definition or_null (o : option string) : option string :=
  if truthy_str o then o else None.

(** [thread_id = ? AND status != 'COMPLETED']; a comparison with NULL is
    not true. *)
Definition selectedByThread (threadId : option string) (r : Row) : bool :=
  match threadId, r_thread_id r, r_status r with
  | Some t, Some t', Some s =>
      bool_decide (t' = t) && negb (bool_decide (s = "COMPLETED"))
  | _, _, _ => false
  end.

(** [getTasksByThreadId], on a store that answers its queries. *)
Definition getTasksByThreadId (db : Table) (threadId : option string) : list Row :=
  filter (λ r, selectedByThread threadId r = true) db.

Definition rowOfTask (task : Task) : Row :=
  {| r_id := id task;
     r_email_id := or_null (emailId task);
     r_thread_id := or_null (threadId task);
     r_description := description task;
     r_deadline := or_null (deadline task);
     r_priority := priority task;
     r_status := status task;
     r_parent_task_id := or_null (parentTaskId task);
     r_is_subtask := isSubtask task;
     r_is_parent := isParent task |}.

(** [INSERT INTO tasks ...]: rejected when the primary key is taken. *)
Definition insert (db : Table) (r : Row) : option Table :=
  if bool_decide (r_id r ∈ map r_id db) then None
  else Some (db ++ [r])%list.

(** [existingTask.description.toLowerCase().trim() ===
     task.description.toLowerCase().trim()]. *)
Definition sameDescription (a b : string) : bool :=
  bool_decide (trim (toLowerCase a) = trim (toLowerCase b)).

(** [handleTaskCreated]: the table after the handler has run.  A rejected
    insertion is caught and logged, and leaves the table as it was. *)
Definition handleTaskCreated (db : Table) (task : Task) : Table :=
  let existingTasks := getTasksByThreadId db (threadId task) in
  let exists_ :=
    existsb (λ existingTask,
               sameDescription (r_description existingTask) (description task))
            existingTasks in
  if exists_ then db
  else
    match insert db (rowOfTask task) with
    | Some db' => db'
    | None => db
    end.

(** The stored tasks of a thread that are not completed and whose
    description equals [description] after lower-casing and trimming. *)
Definition openDuplicates (db : Table) (thread description : string)
  : list Row :=
  filter (λ r, sameDescription (r_description r) description = true)
         (getTasksByThreadId db (Some thread)).

End DBService.

(** ** Scenarios

    Concrete batches and stores on which the functions above are run. *)

Module Scenario.
Import TaskService.

Definition emptyState : State := mkState ∅ ∅ ∅ [].

(** A service whose index holds the given tasks. *)
Definition stateOf (ts : list Task) : State :=
  mkState (list_to_map (map (λ t, (id t, t)) ts)) ∅ ∅ [].

(** A durable store without rows. *)
Definition noRows : string → option Task := λ _, None.

(** An urgent prerequisite and a task of low priority that depends on
    it. *)
Definition sendReport : Task :=
  pendingTask "task_a" "Send report" "HIGH" None [] (Some "thread-1").

Definition reviewBudget : Task :=
  pendingTask "task_b" "Review budget" "LOW" None ["Send report"]
              (Some "thread-1").

(** A prerequisite of low priority and a task of medium priority that
    depends on it. *)
Definition bookRoom : Task :=
  pendingTask "task_c" "Book room" "LOW" None [] (Some "thread-2").

Definition sendInvites : Task :=
  pendingTask "task_d" "Send invites" "MEDIUM" None ["Book room"]
              (Some "thread-2").

(** A cluster with the deadlines 2024-01-10, null and 2024-01-05. *)
Definition cluster : list Task :=
  [ pendingTask "task_1" "Send report" "MEDIUM" (Some "2024-01-10") []
                (Some "thread-1");
    pendingTask "task_2" "Send the report" "LOW" None [] (Some "thread-1");
    pendingTask "task_3" "Send report now" "HIGH" (Some "2024-01-05") []
                (Some "thread-1") ].

(** A store that holds a completed task of thread-1; the same content
    extracted again, which gets the same identifier; and the content once
    more, in other letter case and with another priority, hence with
    another identifier. *)
Definition completedRow : DBService.Row :=
  DBService.rowOfTask
    (with_status (Some "COMPLETED")
       (pendingTask "task_9f2c" "Send report" "HIGH" None []
                    (Some "thread-1"))).

Definition firstAttempt : Task :=
  pendingTask "task_9f2c" "Send report" "HIGH" None [] (Some "thread-1").

Definition secondAttempt : Task :=
  pendingTask "task_41ab" "  SEND REPORT" "MEDIUM" None [] (Some "thread-1").

(** A first attempt with an identifier that the store does not hold. *)
Definition freshAttempt : Task :=
  pendingTask "task_77d0" "Send report" "HIGH" None [] (Some "thread-1").

(** Four tasks of one extraction run. *)
Definition fourTasks : list Task :=
  [ pendingTask "task_1" "Send report" "HIGH" None [] (Some "thread-1");
    pendingTask "task_2" "Review budget" "LOW" None [] (Some "thread-1");
    pendingTask "task_3" "Book room" "MEDIUM" None [] (Some "thread-1");
    pendingTask "task_4" "Call supplier" "LOW" None [] (Some "thread-1") ].

(** A comparison that rejects on every pair. *)
Definition unavailable (task1Description task2Description : string)
  : Completion JSNum :=
  Thrown (OtherError "classifier unavailable").

(** A comparison that finds every pair dissimilar. *)
Definition dissimilar (task1Description task2Description : string)
  : Completion JSNum :=
  Returned (Fin 0).

(** The description that the classifier's summary falls back to. *)
Definition combinedDescription (taskGroup : list Task) : string :=
  "Combined task group".

End Scenario.

(** ** dbService: the other queries and the update handler

    The columns [from_address], [subject], [dependencies], [context],
    [created_at], [updated_at], [child_task_ids] and [comments] are written
    by the handlers and never read by them, and are not part of [Row]. *)

Module DBQueries.
Import DBService.

(** [taskExists]: [SELECT id FROM tasks WHERE id = ?], then [!!result]. *)
Definition taskExists (db : Table) (taskId : string) : bool :=
  bool_decide (taskId ∈ map r_id db).

(** [getTaskById]: the first row of that key, [null] when there is none. *)
Definition getTaskById (db : Table) (taskId : string) : option Row :=
  head (filter (λ r, r_id r = taskId) db).

(** [email_id = ? AND status != 'COMPLETED']. *)
Definition selectedByEmail (emailId : option string) (r : Row) : bool :=
  match emailId, r_email_id r, r_status r with
  | Some e, Some e', Some s =>
      bool_decide (e' = e) && negb (bool_decide (s = "COMPLETED"))
  | _, _, _ => false
  end.

Definition getTasksByEmailId (db : Table) (emailId : option string) : list Row :=
  filter (λ r, selectedByEmail emailId r = true) db.

(** The values that the [UPDATE] statement of [handleTaskUpdated] binds;
    the key of the row is not among the columns it sets. *)
Definition updatedRow (task : Task) (existingTask : Row) : Row :=
  {| r_id := id task;
     r_email_id := or_opt (emailId task) (r_email_id existingTask);
     r_thread_id := or_opt (threadId task) (r_thread_id existingTask);
     r_description := description task;
     r_deadline := or_null (deadline task);
     r_priority := priority task;
     r_status := status task;
     r_parent_task_id := or_null (parentTaskId task);
     r_is_subtask := isSubtask task;
     r_is_parent := isParent task |}.

(** [handleTaskUpdated]: a task without a row is handed to
    [handleTaskCreated]; otherwise every row [WHERE id = ?] is rewritten.
    A failure of [getTaskById] makes the handler throw and log, and leaves
    the table as it was. *)
Definition handleTaskUpdated (db : Table) (task : Task) : Table :=
  if taskExists db (id task) then
    match getTaskById db (id task) with
    | Some existingTask =>
        map (λ r, if bool_decide (r_id r = id task)
                  then updatedRow task existingTask
                  else r)
            db
    | None => db
    end
  else handleTaskCreated db task.



End DBQueries.

(** ** More scenarios *)

Module Scenario2.
Import TaskService.

(** Two prerequisites of low priority, of which only the first is known to
    the index, and a task of medium priority that depends on both. *)
Definition orderFood : Task :=
  pendingTask "task_e" "Order food" "LOW" None [] (Some "thread-2").

Definition planEvent : Task :=
  pendingTask "task_f" "Plan event" "MEDIUM" None ["Book room"; "Order food"]
              (Some "thread-2").

Definition eventBatch : list ExtractionResult :=
  [mkResult [Scenario.bookRoom; orderFood; planEvent]].

(** A task whose dependency names no task of its batch. *)
Definition fileTaxes : Task :=
  pendingTask "task_g" "File taxes" "MEDIUM" None ["Collect receipts"]
              (Some "thread-3").

(** A comparison that scores every pair 0.9. *)
Definition alike (task1Description task2Description : string)
  : Completion JSNum :=
  Returned (Fin (9 # 10)).

End Scenario2.

(** ** Notions used to state properties of the grouping *)

Module GroupingSpec.
Import TaskService.

(** The tasks that the second loop of [groupSimilarTasks] puts beside an
    anchor: those of another identifier, not yet placed, whose recorded
    similarity with the anchor exceeds 0.8. *)
Definition similarTasksOf (allTasks : list Task)
    (similarities : gmap string JSNum) (processedTasks : gset string)
    (task : Task) : list Task :=
  filter (λ otherTask,
            (negb (bool_decide (id otherTask = id task)
                   || bool_decide (id otherTask ∈ processedTasks))
             && isSimilar similarities
                  (getSimilarityCacheKey (id task) (id otherTask)))
            = true)
         allTasks.

(** The cache keys of the pairs made of a task and a later task of a
    list. *)
Fixpoint pairKeys (l : list Task) : gset string :=
  match l with
  | [] => ∅
  | task :: others =>
      list_to_set
        (map (λ otherTask, getSimilarityCacheKey (id task) (id otherTask))
             others)
      ∪ pairKeys others
  end.

(** What the second loop of [groupSimilarTasks] keeps true of the groups
    made so far and of the identifiers placed so far: every group is an
    anchor followed by tasks recorded as similar to it, the members are
    tasks of the batch, the identifiers placed are those of the members, and
    no task is placed twice when the batch lists none twice. *)
Definition groupsOk (allTasks : list Task) (similarities : gmap string JSNum)
    (groups : list (list Task)) (processedTasks : gset string) : Prop :=
  (∀ g, g ∈ groups →
        ∃ anchor members,
          g = anchor :: members
          ∧ ∀ m, m ∈ members →
                 isSimilar similarities
                   (getSimilarityCacheKey (id anchor) (id m)) = true)
  ∧ (∀ t, t ∈ concat groups → t ∈ allTasks)
  ∧ (∀ i, i ∈ processedTasks ↔ i ∈ map id (concat groups))
  ∧ (NoDup allTasks → NoDup (concat groups)).

End GroupingSpec.

(** ** aiService: the replies of the classifier *)

From Stdlib Require Import DecimalString.

Module AIReplies.
Import AIService.

(** [String(n)] on a non-negative integer. *)
Definition decimal (n : nat) : string :=
  NilZero.string_of_uint (Nat.to_uint n).

Definition newline : ascii := ascii_of_nat 10.

Definition quote : string := String (ascii_of_nat 34) EmptyString.

(** [s.split(sep)] for a separator of one character: the pieces between
    the occurrences of the separator; a string without separator is one
    piece. *)
Fixpoint splitOn (sep : ascii) (s : string) : list string :=
  match s with
  | EmptyString => [EmptyString]
  | String c r =>
      if Ascii.eqb c sep then EmptyString :: splitOn sep r
      else
        match splitOn sep r with
        | w :: ws => String c w :: ws
        | [] => [String c EmptyString]
        end
  end.

(** [s.startsWith(p)]. *)
Definition startsWith (p s : string) : bool := String.prefix p s.

(** [s.substring(n)]: the string from index [n] on. *)
Fixpoint substringFrom (n : nat) (s : string) : string :=
  match n, s with
  | O, _ => s
  | S n', String _ r => substringFrom n' r
  | S _, EmptyString => EmptyString
  end.

Definition isEmpty (s : string) : bool :=
  match s with EmptyString => true | _ => false end.

(** *** [parseAIResponse] *)

Record ParsedResponse := mkParsed {
  action : string;
  reason : string;
  draftResponse : option string
}.

(** The variables of the loop: [action], [reason], [draftResponse] and
    [inDraftResponse]. *)
Record ParseState := mkParse {
  p_action : string;
  p_reason : string;
  p_draft : string;
  p_inDraft : bool
}.

(** The body of the loop over the lines. *)
Definition parseLine (st : ParseState) (line : string) : ParseState :=
  if startsWith "Action:" line then
    mkParse (trim (substringFrom 7 line)) (p_reason st) (p_draft st)
            (p_inDraft st)
  else if startsWith "Reason:" line then
    mkParse (p_action st) (trim (substringFrom 7 line)) (p_draft st)
            (p_inDraft st)
  else if startsWith "Draft Response:" line then
    mkParse (p_action st) (p_reason st) (trim (substringFrom 15 line)) true
  else if p_inDraft st then
    mkParse (p_action st) (p_reason st) (p_draft st ++ nl ++ line) true
  else st.

(** The reply of the [catch] block. *)
Definition defaultResponse : ParsedResponse :=
  {| action := "RESPOND";
     reason := "Error parsing AI response";
     draftResponse := Some "I received your email and will review it shortly." |}.

(** [parseAIResponse] on a string: the [throw] of the validation is caught
    by the [catch] block of the function itself. *)
Definition parseAIResponse (response : string) : ParsedResponse :=
  let lines :=
    filter (λ line, trim line ≠ EmptyString) (splitOn newline response) in
  let st := fold_left parseLine lines (mkParse "" "" "" false) in
  if isEmpty (p_action st) || isEmpty (p_reason st)
     || (String.eqb (p_action st) "RESPOND" && isEmpty (p_draft st))
  then defaultResponse
  else
    {| action := toUpperCase (p_action st);
       reason := p_reason st;
       draftResponse :=
         if String.eqb (p_action st) "RESPOND" then Some (trim (p_draft st))
         else None |}.

(** *** [quickAnalyzeEmail] *)

Record Email := mkEmail {
  e_id : string;
  e_subject : option string;
  e_from : option string;
  e_body : option string
}.

Record QuickAnalysis := mkQuick {
  shouldAutoArchive : bool;
  q_reason : string
}.

Definition quickPrompt (subject from body : string) : string :=
  "Quickly analyze if this email should be automatically archived without task extraction."
  ++ nl ++ nl
  ++ "Subject: " ++ subject ++ nl
  ++ "From: " ++ from ++ nl
  ++ "Content: " ++ body ++ nl ++ nl
  ++ "Auto-archive if ANY of these are true:" ++ nl
  ++ "1. Automated notification or alert" ++ nl
  ++ "2. Newsletter or marketing email" ++ nl
  ++ "3. System-generated message" ++ nl
  ++ "4. Service notification" ++ nl
  ++ "5. Delivery status/tracking update" ++ nl
  ++ "6. Calendar invitation/update" ++ nl
  ++ "7. Subscription confirmation" ++ nl
  ++ "8. Automated receipt/invoice" ++ nl
  ++ "9. Social media notification" ++ nl
  ++ "10. Promotional offer" ++ nl
  ++ "11. " ++ quote ++ "no-reply" ++ quote ++ " sender address" ++ nl
  ++ "12. Automated workflow email" ++ nl ++ nl
  ++ "Return EXACTLY in this format:" ++ nl
  ++ "ARCHIVE: true/false" ++ nl
  ++ "REASON: [Brief reason if should be archived]".

(** [line.split(":")[1]]: the text between the first colon and the second
    one or the end of the line; undefined when the line holds no colon. *)
Definition secondField (line : string) : option string :=
  splitOn ":"%char line !! 1%nat.

Definition parseFailure : QuickAnalysis :=
  {| shouldAutoArchive := false;
     q_reason := "Error parsing analysis response" |}.

Definition analysisFailure : QuickAnalysis :=
  {| shouldAutoArchive := false;
     q_reason := "Error performing analysis" |}.

(** [quickAnalyzeEmail]: reading [trim] of undefined throws, which the
    inner [catch] block answers with [parseFailure]; a failure of the
    classifier is answered by the outer one. *)
Definition quickAnalyzeEmail (model : string → ModelReply) (email : Email)
  : QuickAnalysis :=
  let formattedPrompt :=
    quickPrompt (or_str (e_subject email) "") (or_str (e_from email) "")
                (or_str (e_body email) "") in
  match model formattedPrompt with
  | ModelFails _ => analysisFailure
  | ModelContent content =>
      let lines := splitOn newline (trim content) in
      match lines !! 0%nat with
      | None => parseFailure
      | Some first =>
          match secondField first with
          | None => parseFailure
          | Some field =>
              let shouldArchive :=
                String.eqb (toLowerCase (trim field)) "true" in
              match lines !! 1%nat with
              | None => parseFailure
              | Some second =>
                  match secondField second with
                  | None => parseFailure
                  | Some reasonField =>
                      {| shouldAutoArchive := shouldArchive;
                         q_reason := trim reasonField |}
                  end
              end
          end
      end
  end.

(** *** [generateParentTaskDescription] *)

Definition parentPrompt (tasksText : string) : string :=
  "Create a parent task description that encompasses these related tasks:"
  ++ nl ++ nl
  ++ "Tasks:" ++ nl
  ++ tasksText ++ nl ++ nl
  ++ "Guidelines:" ++ nl
  ++ "1. Create a clear, concise parent task description" ++ nl
  ++ "2. Capture the common objective" ++ nl
  ++ "3. Keep it actionable" ++ nl
  ++ "4. Include scope of subtasks" ++ nl
  ++ "5. Maintain context" ++ nl ++ nl
  ++ "Return ONLY the parent task description in a single line.".

(** The numbered list of the descriptions of the members. *)
Definition tasksText (taskGroup : list Task) : string :=
  join nl (imap (λ index task,
                   decimal (index + 1) ++ ". " ++ description task)
                taskGroup).

Definition fallbackDescription (taskGroup : list Task) : string :=
  "Combined task group (" ++ decimal (length taskGroup) ++ " tasks)".

Definition generateParentTaskDescription (model : string → ModelReply)
    (taskGroup : list Task) : string :=
  match model (parentPrompt (tasksText taskGroup)) with
  | ModelFails _ => fallbackDescription taskGroup
  | ModelContent content => trim content
  end.

End AIReplies.

(** * Properties *)

(** ** The quick filter *)

Module QuickFilterProps.
Import AIService.

Lemma splitFrom_nonempty (inRun : bool) (s : string) : splitFrom inRun s ≠ [].
Proof.
  revert inRun. induction s as [|c r IH]; intros inRun; simpl; [done|].
  destruct (isSpace c).
  - destruct inRun; [apply IH | done].
  - destruct (splitFrom false r); done.
Qed.

Lemma wordSet_inhabited (s : string) : ∃ w, w ∈ wordSet s.
Proof.
  unfold wordSet, splitWhitespace.
  destruct (splitFrom false s) as [|w ws] eqn:E.
  - by apply splitFrom_nonempty in E.
  - exists w. set_solver.
Qed.

Lemma union_size_pos (s1 s2 : string) :
  size (wordSet s1 ∪ wordSet s2) ≠ 0%nat.
Proof.
  destruct (wordSet_inhabited s1) as [w Hw].
  intros H0. apply size_empty_iff in H0. set_solver.
Qed.

(** C10. [quickStringComparison] is total: splitting any string leaves at
    least one token, the union of the two token sets is never empty, so
    the division is by a non-zero size and the result is a fraction; and
    two inputs that both normalize to the empty string score exactly 1. *)
Theorem quickStringComparison_total (str1 str2 : string) :
  splitWhitespace (normalize str1) ≠ []
  ∧ size (wordSet (normalize str1) ∪ wordSet (normalize str2)) ≠ 0%nat
  ∧ (∃ q, quickStringComparison str1 str2 = Fin q)
  ∧ (normalize str1 = "" → normalize str2 = "" →
     quickStringComparison str1 str2 = Fin 1
     ∧ ∀ model parseFloat,
         (compareTaskSimilarity model parseFloat (Some str1) (Some str2)).2
         = Returned (Fin 1)).
Proof.
  split; [apply splitFrom_nonempty|].
  split; [apply union_size_pos|].
  split.
  - unfold quickStringComparison.
    pose proof (union_size_pos (normalize str1) (normalize str2)) as Hne.
    destruct (size (wordSet (normalize str1) ∪ wordSet (normalize str2)));
      [done | simpl; eauto].
  - intros H1 H2.
    assert (quickStringComparison str1 str2 = Fin 1) as Hq.
    { unfold quickStringComparison. rewrite H1, H2. vm_compute. reflexivity. }
    split; [exact Hq|]. intros model parseFloat.
    unfold compareTaskSimilarity. simpl. rewrite Hq. reflexivity.
Qed.

Lemma quickStringComparison_total_witness :
  normalize "?!..." = "" ∧ normalize "" = ""
  ∧ quickStringComparison "?!..." "" = Fin 1.
Proof.
  split; [reflexivity|]. split; [reflexivity|].
  apply (quickStringComparison_total "?!..." ""); reflexivity.
Defined.

End QuickFilterProps.

(** ** The pairwise comparator *)

Module ComparatorProps.
Import AIService.

Lemma or_str_some (s : string) : or_str (Some s) "" = s.
Proof. by destruct s. Qed.

Lemma gt_high_not_lt_low (x : JSNum) :
  JS.gt x (Fin (9 # 10)) = true → JS.lt x (Fin (3 # 10)) = false.
Proof.
  destruct x as [| | |q]; simpl; try done.
  intros H. apply negb_true_iff in H. apply negb_false_iff.
  apply Qle_bool_iff.
  destruct (Qlt_le_dec (9 # 10) q) as [Hlt|Hle].
  - apply Qlt_le_weak. eapply Qlt_trans; [|exact Hlt]. reflexivity.
  - apply Qle_bool_iff in Hle. congruence.
Qed.

(** C6. When the quick-filter estimate is strictly below 0.3 the
    comparison returns 0, and when it is strictly above 0.9 it returns 1;
    in both cases the classifier is not invoked. *)
Theorem compareTaskSimilarity_short_circuit
    (model : string → ModelReply) (parseFloat : string → JSNum)
    (d1 d2 : string) :
  (JS.lt (quickStringComparison d1 d2) (Fin (3 # 10)) = true →
   compareTaskSimilarity model parseFloat (Some d1) (Some d2)
   = ([], Returned (Fin 0)))
  ∧ (JS.gt (quickStringComparison d1 d2) (Fin (9 # 10)) = true →
     compareTaskSimilarity model parseFloat (Some d1) (Some d2)
     = ([], Returned (Fin 1))).
Proof.
  unfold compareTaskSimilarity; simpl. split; intros H.
  - by rewrite H.
  - by rewrite (gt_high_not_lt_low _ H), H.
Qed.

Lemma compareTaskSimilarity_short_circuit_witness :
  JS.lt (quickStringComparison "send report" "buy milk") (Fin (3 # 10)) = true
  ∧ compareTaskSimilarity (λ _, ModelContent "0.5") (λ _, Fin (1 # 2))
      (Some "send report") (Some "buy milk") = ([], Returned (Fin 0))
  ∧ JS.gt (quickStringComparison "Send report!" "send REPORT") (Fin (9 # 10)) = true
  ∧ compareTaskSimilarity (λ _, ModelContent "0.5") (λ _, Fin (1 # 2))
      (Some "Send report!") (Some "send REPORT") = ([], Returned (Fin 1)).
Proof.
  split; [reflexivity|]. split.
  - apply (compareTaskSimilarity_short_circuit _ _ "send report" "buy milk").
    reflexivity.
  - split; [reflexivity|].
    apply (compareTaskSimilarity_short_circuit _ _ "Send report!" "send REPORT").
    reflexivity.
Defined.

(** C7. The comparison never rejects; and whenever the classifier is
    called and the call fails, or its answer parses to NaN or to a number
    outside [0,1], the comparison returns the quick-filter estimate of the
    pair. *)
Theorem compareTaskSimilarity_fallback
    (model : string → ModelReply) (parseFloat : string → JSNum) :
  (∀ d1 d2 : option string,
     ∃ v, (compareTaskSimilarity model parseFloat d1 d2).2 = Returned v)
  ∧ (∀ d1 d2 : string,
       let prompt := similarityPrompt d1 d2 in
       (compareTaskSimilarity model parseFloat (Some d1) (Some d2)).1 ≠ [] →
       (∃ e, model prompt = ModelFails e)
       ∨ (∃ content, model prompt = ModelContent content
                     ∧ invalidScore (parseFloat (trim content)) = true) →
       compareTaskSimilarity model parseFloat (Some d1) (Some d2)
       = ([prompt], Returned (quickStringComparison d1 d2))).
Proof.
  split.
  - intros d1 d2. unfold compareTaskSimilarity.
    destruct (quickStringComparison_js d1 d2) as [q|e]; [|simpl; eauto].
    destruct (JS.lt q _); [simpl; eauto|].
    destruct (JS.gt q _); [simpl; eauto|].
    destruct (model _); [simpl; eauto|].
    destruct (invalidScore _); simpl; eauto.
  - intros d1 d2 prompt.
    unfold compareTaskSimilarity, quickStringComparison_js, compareFallback.
    rewrite !or_str_some. fold prompt.
    destruct (JS.lt _ _); [done|]. destruct (JS.gt _ _); [done|].
    intros _ [[e He]|(content & Hc & Hinv)].
    + by rewrite He.
    + by rewrite Hc, Hinv.
Qed.

Lemma compareTaskSimilarity_fallback_witness :
  compareTaskSimilarity (λ _, ModelFails (OtherError "timeout")) (λ _, NaN)
    (Some "send report") (Some "send the report")
  = ([similarityPrompt "send report" "send the report"], Returned (Fin (2 # 3)))
  ∧ compareTaskSimilarity (λ _, ModelContent "1.7") (λ _, Fin (17 # 10))
      (Some "send report") (Some "send the report")
    = ([similarityPrompt "send report" "send the report"], Returned (Fin (2 # 3))).
Proof.
  split.
  - apply (compareTaskSimilarity_fallback
             (λ _, ModelFails (OtherError "timeout")) (λ _, NaN)).
    + vm_compute. discriminate.
    + left. eexists. reflexivity.
  - apply (compareTaskSimilarity_fallback
             (λ _, ModelContent "1.7") (λ _, Fin (17 # 10))).
    + vm_compute. discriminate.
    + right. eexists. split; reflexivity.
Defined.

End ComparatorProps.

(** ** Task identifiers *)

Module TaskIdProps.
Import AIService.

(** C8. [generateTaskId] is a function of the thread id, the deadline, the
    priority and the normalized description: two tasks that agree on the
    first three and whose descriptions are equal after lower-casing,
    trimming and collapsing runs of white space get the same id. *)
Theorem generateTaskId_stable (sha256_hex : string → string)
    (task1 task2 : IdInput) :
  in_threadId task1 = in_threadId task2 →
  in_deadline task1 = in_deadline task2 →
  in_priority task1 = in_priority task2 →
  collapseWhitespace (trim (toLowerCase (in_description task1)))
  = collapseWhitespace (trim (toLowerCase (in_description task2))) →
  generateTaskId sha256_hex task1 = generateTaskId sha256_hex task2.
Proof.
  intros Hthread Hdeadline Hpriority Hdescription.
  unfold generateTaskId, normalizedDescription.
  by rewrite Hthread, Hdeadline, Hpriority, Hdescription.
Qed.

Lemma generateTaskId_stable_witness :
  generateTaskId (λ s, s)
    {| in_description := "  Send   the REPORT ";
       in_threadId := Some "thread-1";
       in_deadline := Some "2024-01-05";
       in_priority := Some "HIGH" |}
  = generateTaskId (λ s, s)
    {| in_description := "send the report";
       in_threadId := Some "thread-1";
       in_deadline := Some "2024-01-05";
       in_priority := Some "HIGH" |}.
Proof.
  apply generateTaskId_stable; reflexivity.
Defined.

End TaskIdProps.

(** ** Priorities and propagation *)

Module PriorityProps.
Import TaskService.

Lemma priorityMap_values (p : string) (n : nat) :
  priorityMap !! p = Some n → (n ≤ 2)%nat.
Proof.
  intros H. apply elem_of_list_to_map_2 in H.
  repeat (apply elem_of_cons in H as [H|H]; [injection H as _ <-; lia|]).
  by apply elem_of_nil in H.
Qed.

Lemma getPriorityValue_le_3 (p : string) : (getPriorityValue p ≤ 3)%nat.
Proof.
  unfold getPriorityValue.
  destruct (priorityMap !! p) as [n|] eqn:E; simpl; [|lia].
  apply priorityMap_values in E. destruct n; lia.
Qed.

Lemma getHighestPriority_acc (tasks : list Task) (start : string) :
  start ≠ "HIGH" →
  fold_left
    (λ highest task,
       if (getPriorityValue (priority task) <? getPriorityValue highest)%nat
       then priority task else highest)
    tasks start ≠ "HIGH".
Proof.
  revert start. induction tasks as [|t ts IH]; intros start Hs; simpl; [done|].
  apply IH. destruct (Nat.ltb_spec (getPriorityValue (priority t))
                                   (getPriorityValue start)) as [Hlt|]; [|done].
  intros Heq. rewrite Heq in Hlt.
  pose proof (getPriorityValue_le_3 start).
  change (getPriorityValue "HIGH") with 3%nat in Hlt. lia.
Qed.

(** C9. The code gives ["HIGH"] the value 3, because [priorityMap["HIGH"]]
    is the falsy [0]: [getHighestPriority] never answers ["HIGH"], and on
    members of priorities MEDIUM, LOW, HIGH it answers ["MEDIUM"]. *)
Theorem getHighestPriority_misses_high :
  getPriorityValue "HIGH" = 3%nat
  ∧ (∀ tasks, getHighestPriority tasks ≠ "HIGH")
  ∧ getHighestPriority
      [ pendingTask "t1" "Send report" "MEDIUM" None [] None;
        pendingTask "t2" "Send the report" "LOW" None [] None;
        pendingTask "t3" "Send report now" "HIGH" None [] None ]
    = "MEDIUM".
Proof.
  split; [reflexivity|]. split; [|reflexivity].
  intros tasks. by apply getHighestPriority_acc.
Qed.

End PriorityProps.

Module PropagationProps.
Import TaskService.

(** *** Loops *)

Lemma forEach_app {A} (body : A → M unit) (l1 l2 : list A) (st : State) :
  forEach body (l1 ++ l2) st = (do! forEach body l1 in forEach body l2) st.
Proof.
  revert st. induction l1 as [|x l1 IH]; intros st; simpl; [done|].
  unfold bind. destruct (body x st) as [st' [[]|e]]; [|done].
  rewrite IH. reflexivity.
Qed.

Lemma forEach_flat_map {A B} (g : A → list B) (f : B → M unit)
    (body : A → M unit) (l : list A) :
  (∀ x st, body x st = forEach f (g x) st) →
  ∀ st, forEach body l st = forEach f (flat_map g l) st.
Proof.
  intros Hbody. induction l as [|x l IH]; intros st; simpl; [done|].
  rewrite forEach_app. unfold bind. rewrite Hbody.
  destruct (forEach f (g x) st) as [st' [[]|e]]; [apply IH|done].
Qed.

Section WithStore.

Variable getTaskById : string → option Task.

(** The run of [prioritizeTasks] is the run of its updates. *)
Lemma prioritizeTasks_updates (results : list ExtractionResult) (st : State) :
  prioritizeTasks getTaskById results st
  = applyUpdates getTaskById (updatesOf results) st.
Proof.
  unfold prioritizeTasks, applyUpdates, updatesOf.
  apply forEach_flat_map. intros task st'. unfold updatesFor.
  destruct (dependencies task) as [|d ds]; [done|].
  apply forEach_flat_map. intros depTask st''. unfold escalate.
  destruct (_ <? _)%nat; [|done].
  simpl. unfold applyUpdate, bind, ret.
  by destruct (updateTask _ _ _ st'') as [? [?|?]].
Qed.

(** *** One update *)

Lemma updateTask_returned (taskId : string) (data : Task) (st st' : State)
    (u : Task) :
  updateTask getTaskById taskId data st = (st', Returned u) →
  priority u = priority data
  ∧ tasksMap st' = <[taskId := u]> (tasksMap st).
Proof.
  unfold updateTask, loadTaskFromDb, bind, gets, modify, ret, throw.
  destruct (tasksMap st !! taskId) as [t|]; simpl.
  - intros [= <- <-]. done.
  - destruct (getTaskById taskId) as [t|]; simpl; [|done].
    intros [= <- <-]. simpl. split; [done|]. apply insert_insert_eq.
Qed.

Lemma updateTask_present (taskId : string) (data : Task) (st : State) :
  is_Some (tasksMap st !! taskId) →
  ∃ st' u, updateTask getTaskById taskId data st = (st', Returned u).
Proof.
  intros [t Ht].
  unfold updateTask, loadTaskFromDb, bind, gets, modify, ret, throw.
  rewrite Ht. simpl. eauto.
Qed.

(** *** A sequence of updates *)

Lemma applyUpdates_cons (u : string * Task) (us : list (string * Task))
    (st st' : State) :
  applyUpdates getTaskById (u :: us) st = (st', Returned tt) →
  ∃ st1 t, updateTask getTaskById u.1 u.2 st = (st1, Returned t)
           ∧ applyUpdates getTaskById us st1 = (st', Returned tt).
Proof.
  unfold applyUpdates. simpl. unfold applyUpdate, bind at 1 2, ret.
  destruct (updateTask _ _ _ st) as [st1 [t|e]]; [eauto|done].
Qed.

Lemma applyUpdates_priority (us : list (string * Task)) (st st' : State) :
  applyUpdates getTaskById us st = (st', Returned tt) →
  ∀ taskId,
    priority <$> tasksMap st' !! taskId
    = match lastUpdate taskId us with
      | Some p => Some p
      | None => priority <$> tasksMap st !! taskId
      end.
Proof.
  revert st. induction us as [|u us IH]; intros st Hrun taskId.
  - injection Hrun as <-. done.
  - apply applyUpdates_cons in Hrun as (st1 & t & Hu & Hrest).
    apply updateTask_returned in Hu as [Hp Hm].
    rewrite (IH _ Hrest taskId). simpl.
    destruct (lastUpdate taskId us); [done|].
    rewrite Hm. destruct (decide (taskId = u.1)) as [->|Hne].
    + rewrite lookup_insert_eq. simpl. by rewrite Hp.
    + by rewrite lookup_insert_ne.
Qed.

Lemma applyUpdates_keeps (us : list (string * Task)) (st st' : State)
    (taskId : string) :
  applyUpdates getTaskById us st = (st', Returned tt) →
  is_Some (tasksMap st !! taskId) → is_Some (tasksMap st' !! taskId).
Proof.
  revert st. induction us as [|u us IH]; intros st Hrun Hin.
  - by injection Hrun as <-.
  - apply applyUpdates_cons in Hrun as (st1 & t & Hu & Hrest).
    apply updateTask_returned in Hu as [_ Hm].
    apply (IH _ Hrest). rewrite Hm.
    destruct (decide (u.1 = taskId)) as [->|Hne].
    + rewrite lookup_insert_eq. eauto.
    + by rewrite lookup_insert_ne.
Qed.

Lemma applyUpdates_stored (us : list (string * Task)) (st st' : State) :
  applyUpdates getTaskById us st = (st', Returned tt) →
  ∀ u, u ∈ us → is_Some (tasksMap st' !! u.1).
Proof.
  revert st. induction us as [|u0 us IH]; intros st Hrun u Hu.
  - by apply elem_of_nil in Hu.
  - pose proof Hrun as Hrun'.
    apply applyUpdates_cons in Hrun as (st1 & t & Hu0 & Hrest).
    apply elem_of_cons in Hu as [->|Hu]; [|by apply (IH _ Hrest)].
    apply (applyUpdates_keeps _ _ _ _ Hrest).
    apply updateTask_returned in Hu0 as [_ Hm].
    rewrite Hm, lookup_insert_eq. eauto.
Qed.

Lemma applyUpdates_total (us : list (string * Task)) (st : State) :
  (∀ u, u ∈ us → is_Some (tasksMap st !! u.1)) →
  ∃ st', applyUpdates getTaskById us st = (st', Returned tt).
Proof.
  revert st. induction us as [|u us IH]; intros st Hin.
  - eexists. reflexivity.
  - destruct (updateTask_present u.1 u.2 st) as (st1 & t & Hu).
    { apply Hin. apply elem_of_cons. by left. }
    destruct (IH st1) as [st' Hrest].
    { intros v Hv. apply updateTask_returned in Hu as [_ Hm]. rewrite Hm.
      destruct (decide (u.1 = v.1)) as [->|Hne].
      - rewrite lookup_insert_eq. eauto.
      - rewrite lookup_insert_ne by done. apply Hin, elem_of_cons. by right. }
    exists st'. unfold applyUpdates. simpl.
    unfold applyUpdate, bind at 1 2, ret. rewrite Hu. exact Hrest.
Qed.

End WithStore.

(** C3. After a run of [prioritizeTasks] that completed, a second run on
    the same batch completes as well and leaves every priority of the task
    store as the first run left it. *)
Theorem prioritizeTasks_idempotent (getTaskById : string → option Task)
    (results : list ExtractionResult) (st st1 : State) :
  prioritizeTasks getTaskById results st = (st1, Returned tt) →
  ∃ st2,
    prioritizeTasks getTaskById results st1 = (st2, Returned tt)
    ∧ ∀ taskId,
        priority <$> tasksMap st2 !! taskId
        = priority <$> tasksMap st1 !! taskId.
Proof.
  rewrite prioritizeTasks_updates. intros Hrun1.
  destruct (applyUpdates_total getTaskById
              (updatesOf results) st1) as [st2 Hrun2].
  { by apply (applyUpdates_stored _ _ _ _ Hrun1). }
  exists st2. rewrite prioritizeTasks_updates. split; [exact Hrun2|].
  intros taskId.
  rewrite (applyUpdates_priority _ _ _ _ Hrun2 taskId).
  rewrite (applyUpdates_priority _ _ _ _ Hrun1 taskId).
  by destruct (lastUpdate taskId _).
Qed.

Lemma prioritizeTasks_idempotent_witness :
  let batch := [mkResult [Scenario.bookRoom; Scenario.sendInvites]] in
  let st := Scenario.stateOf [Scenario.bookRoom; Scenario.sendInvites] in
  let st1 := (prioritizeTasks Scenario.noRows batch st).1 in
  priority <$> tasksMap st !! "task_c" = Some "LOW"
  ∧ priority <$> tasksMap st1 !! "task_c" = Some "MEDIUM"
  ∧ ∃ st2,
      prioritizeTasks Scenario.noRows batch st1 = (st2, Returned tt)
      ∧ ∀ taskId,
          priority <$> tasksMap st2 !! taskId
          = priority <$> tasksMap st1 !! taskId.
Proof.
  intros batch st st1.
  split; [vm_compute; reflexivity|]. split; [vm_compute; reflexivity|].
  apply (prioritizeTasks_idempotent Scenario.noRows batch st st1).
  vm_compute. reflexivity.
Defined.

(** A task of priority HIGH never raises a prerequisite: its value is 3,
    which no value exceeds. *)
Lemma escalate_from_high (getTaskById : string → option Task)
    (task depTask : Task) (st : State) :
  priority task = "HIGH" →
  escalate getTaskById task depTask st = (st, Returned tt).
Proof.
  intros Hhigh. unfold escalate. rewrite Hhigh.
  change (getPriorityValue "HIGH") with 3%nat.
  pose proof (PriorityProps.getPriorityValue_le_3 (priority depTask)) as Hle.
  destruct (Nat.ltb_spec 3 (getPriorityValue (priority depTask))); [lia|done].
Qed.

(** C1. On a batch where a task of priority LOW depends on a task of
    priority HIGH, [prioritizeTasks] rewrites the stored priority of the
    prerequisite from HIGH to LOW: the run makes it less urgent. *)
Theorem prioritizeTasks_downgrades :
  let batch := [mkResult [Scenario.sendReport; Scenario.reviewBudget]] in
  let st := Scenario.stateOf [Scenario.sendReport; Scenario.reviewBudget] in
  ∃ st1,
    prioritizeTasks Scenario.noRows batch st = (st1, Returned tt)
    ∧ priority <$> tasksMap st !! "task_a" = Some "HIGH"
    ∧ priority <$> tasksMap st1 !! "task_a" = Some "LOW"
    ∧ rank "HIGH" = Some 0%nat ∧ rank "LOW" = Some 2%nat.
Proof.
  intros batch st.
  exists (prioritizeTasks Scenario.noRows batch st).1.
  repeat split; vm_compute; reflexivity.
Qed.

End PropagationProps.

(** ** Parent synthesis *)

Module ParentProps.
Import TaskService.

Lemma fold_left_min2_TV (l : list Z) (a : Z) :
  fold_left min2 (map TV l) (TV a) = TV (fold_left Z.min l a).
Proof.
  revert a. induction l as [|x l IH]; intros a; simpl; [done|]. apply IH.
Qed.

Lemma fold_left_min_spec (l : list Z) (a : Z) :
  (fold_left Z.min l a = a ∨ fold_left Z.min l a ∈ l)
  ∧ (fold_left Z.min l a ≤ a)%Z
  ∧ ∀ x, x ∈ l → (fold_left Z.min l a ≤ x)%Z.
Proof.
  revert a. induction l as [|y l IH]; intros a; simpl.
  - split; [by left|]. split; [lia|]. intros x Hx. by apply elem_of_nil in Hx.
  - destruct (IH (Z.min a y)) as (Hmem & Hle & Hall).
    split; [|split].
    + destruct Hmem as [Heq|Hin].
      * rewrite Heq. destruct (Z.min_spec a y) as [[_ ->]|[_ ->]];
          [by left | right; apply elem_of_cons; by left].
      * right. apply elem_of_cons. by right.
    + lia.
    + intros x Hx. apply elem_of_cons in Hx as [->|Hx]; [lia|by apply Hall].
Qed.

Section WithParser.

Variable DateParse : string → TimeValue.

Lemma valid_times_map (tasks : list Task) :
  map (deadlineTime DateParse)
      (filter (λ d, validDeadline DateParse d = true) (map deadline tasks))
  = map TV (validDeadlineTimes DateParse tasks).
Proof.
  induction tasks as [|t ts IH]; [done|].
  unfold validDeadlineTimes in *. cbn [map omap list_omap]. rewrite filter_cons.
  unfold validDeadline at 1.
  destruct (deadline t) as [[|c r]|]; cbn [truthy_str andb].
  - case_decide as H; [discriminate H|exact IH].
  - case_decide as H; destruct (DateParse (String c r)) eqn:E;
      cbn in H; try discriminate H; try exact IH; try done.
    cbn [map deadlineTime]. rewrite E. by f_equal.
  - case_decide as H; [discriminate H|exact IH].
Qed.

Lemma getEarliestDeadline_min (tasks : list Task) :
  getEarliestDeadline DateParse tasks
  = match validDeadlineTimes DateParse tasks with
    | [] => None
    | t :: ts => Some (toISOString (fold_left Z.min ts t))
    end.
Proof.
  unfold getEarliestDeadline.
  pose proof (valid_times_map tasks) as Hmap.
  destruct (filter _ (map deadline tasks)) as [|d ds];
    destruct (validDeadlineTimes DateParse tasks) as [|t ts];
    try discriminate Hmap; [done|].
  rewrite Hmap. unfold Math_min. simpl.
  by rewrite fold_left_min2_TV.
Qed.

Lemma createParentTask_returns (describe : list Task → string)
    (generated : string) (taskGroup : list Task) (st : State) :
  ∃ st' parent,
    createParentTask DateParse describe generated taskGroup st
    = (st', Returned parent)
    ∧ deadline parent = getEarliestDeadline DateParse taskGroup
    ∧ priority parent = getHighestPriority taskGroup.
Proof.
  unfold createParentTask, createTask, bind, modify, ret. simpl.
  do 2 eexists. split; [reflexivity|]. done.
Qed.

End WithParser.

(** C4, as the code has it.  The parent synthesized for a cluster is
    created, and its deadline is [null] when no member has a present and
    parseable deadline, and otherwise the ISO-8601 UTC timestamp
    ([toISOString]) of the earliest of the members' parseable deadlines;
    unparseable deadlines are skipped.  For the deadlines 2024-01-10, null
    and 2024-01-05 it is 2024-01-05T00:00:00.000Z. *)
Theorem createParentTask_deadline :
  (∀ (DateParse : string → TimeValue) (describe : list Task → string)
     (generated : string) (taskGroup : list Task) (st : State),
     ∃ st' parent,
       createParentTask DateParse describe generated taskGroup st
       = (st', Returned parent)
       ∧ (validDeadlineTimes DateParse taskGroup = [] →
          deadline parent = None)
       ∧ (validDeadlineTimes DateParse taskGroup ≠ [] →
          ∃ m, deadline parent = Some (toISOString m)
               ∧ m ∈ validDeadlineTimes DateParse taskGroup
               ∧ ∀ t, t ∈ validDeadlineTimes DateParse taskGroup → (m ≤ t)%Z))
  ∧ ∃ st' parent,
      createParentTask parseDateOnly Scenario.combinedDescription
        "task_parent" Scenario.cluster Scenario.emptyState
      = (st', Returned parent)
      ∧ deadline parent = Some "2024-01-05T00:00:00.000Z".
Proof.
  split.
  - intros DateParse describe generated taskGroup st.
    destruct (createParentTask_returns DateParse describe generated
                taskGroup st) as (st' & parent & Hrun & Hd & _).
    exists st', parent. split; [exact Hrun|].
    rewrite Hd, getEarliestDeadline_min.
    destruct (validDeadlineTimes DateParse taskGroup) as [|t ts];
      split; try done.
    intros _. exists (fold_left Z.min ts t).
    destruct (fold_left_min_spec ts t) as (Hmem & Hle & Hall).
    split; [done|]. split.
    + apply elem_of_cons. destruct Hmem as [->|Hin]; [by left|by right].
    + intros x Hx. apply elem_of_cons in Hx as [->|Hx]; [lia|by apply Hall].
  - destruct (createParentTask_returns parseDateOnly
                Scenario.combinedDescription "task_parent" Scenario.cluster
                Scenario.emptyState) as (st' & parent & Hrun & Hd & _).
    exists st', parent. split; [exact Hrun|]. rewrite Hd.
    vm_compute. reflexivity.
Qed.

Lemma createParentTask_deadline_witness :
  validDeadlineTimes parseDateOnly Scenario.cluster
  = [1704844800000; 1704412800000]%Z
  ∧ ∃ st' parent,
      createParentTask parseDateOnly Scenario.combinedDescription
        "task_parent" Scenario.cluster Scenario.emptyState
      = (st', Returned parent)
      ∧ ∃ m, deadline parent = Some (toISOString m)
             ∧ m ∈ [1704844800000; 1704412800000]%Z.
Proof.
  split; [vm_compute; reflexivity|].
  destruct createParentTask_deadline as [Hgeneral _].
  destruct (Hgeneral parseDateOnly Scenario.combinedDescription
              "task_parent" Scenario.cluster Scenario.emptyState)
    as (st' & parent & Hrun & _ & Hmin).
  exists st', parent. split; [exact Hrun|].
  destruct Hmin as (m & Hd & Hin & _); [vm_compute; discriminate|].
  exists m. split; [exact Hd|]. exact Hin.
Defined.

(** C4, as the claim states it, fails: for the deadlines 2024-01-10, null
    and 2024-01-05 the deadline of the parent is not the string
    2024-01-05. *)
Lemma createParentTask_deadline_not_date_only :
  ∃ st' parent,
    createParentTask parseDateOnly Scenario.combinedDescription
      "task_parent" Scenario.cluster Scenario.emptyState
    = (st', Returned parent)
    ∧ deadline parent ≠ Some "2024-01-05".
Proof.
  destruct (createParentTask_returns parseDateOnly
              Scenario.combinedDescription "task_parent" Scenario.cluster
              Scenario.emptyState) as (st' & parent & Hrun & Hd & _).
  exists st', parent. split; [exact Hrun|]. rewrite Hd.
  vm_compute. discriminate.
Qed.

End ParentProps.

(** ** Grouping *)

Module GroupingProps.
Import TaskService.

Lemma allTasks_unbound :
  ∀ (value : list Task),
    resolveIdentifier catchScope "allTasks" value
    = Thrown (ReferenceError "allTasks is not defined").
Proof. intros value. reflexivity. Qed.

(** Whenever the [try] block throws, the [catch] block throws in turn: it
    reads [allTasks], which is not bound there. *)
Lemma groupSimilarTasks_catch_throws
    (compare : string → string → Completion JSNum)
    (results : list ExtractionResult) (st st' : State) (e : Error) :
  groupSimilarTasks_try compare results st = (st', Thrown e) →
  groupSimilarTasks compare results st
  = (st', Thrown (ReferenceError "allTasks is not defined")).
Proof.
  intros Htry. unfold groupSimilarTasks. rewrite Htry.
  unfold groupSimilarTasks_catch. by rewrite allTasks_unbound.
Qed.

(** Without a failure the four tasks come back as four groups of one. *)
Lemma groupSimilarTasks_singletons :
  (groupSimilarTasks Scenario.dissimilar [mkResult Scenario.fourTasks]
                     Scenario.emptyState).2
  = Returned (map (λ task, [task]) Scenario.fourTasks).
Proof. vm_compute. reflexivity. Qed.

(** C2. With four tasks and a comparison that rejects, the [try] block of
    [groupSimilarTasks] throws and the routine rejects with a
    ReferenceError: it does not return the four groups of one. *)
Theorem groupSimilarTasks_fallback_rejects :
  let results := [mkResult Scenario.fourTasks] in
  (groupSimilarTasks_try Scenario.unavailable results Scenario.emptyState).2
  = Thrown (OtherError "classifier unavailable")
  ∧ (groupSimilarTasks Scenario.unavailable results Scenario.emptyState).2
    = Thrown (ReferenceError "allTasks is not defined")
  ∧ (groupSimilarTasks Scenario.unavailable results Scenario.emptyState).2
    ≠ Returned (map (λ task, [task]) Scenario.fourTasks).
Proof.
  intros results.
  assert (groupSimilarTasks_try Scenario.unavailable results
            Scenario.emptyState
          = (Scenario.emptyState, Thrown (OtherError "classifier unavailable")))
    as Htry by (vm_compute; reflexivity).
  split; [by rewrite Htry|].
  rewrite (groupSimilarTasks_catch_throws _ _ _ _ _ Htry). simpl.
  split; [reflexivity|discriminate].
Qed.

End GroupingProps.

(** ** Duplicate suppression in the durable store *)

Module StoreProps.
Import DBService.

Lemma sameDescription_trans (a b c : string) :
  sameDescription a b = true → sameDescription b c = true →
  sameDescription a c = true.
Proof.
  unfold sameDescription. intros H1 H2.
  apply bool_decide_eq_true in H1, H2. apply bool_decide_eq_true. congruence.
Qed.

Lemma sameDescription_sym (a b : string) :
  sameDescription a b = true → sameDescription b a = true.
Proof.
  unfold sameDescription. intros H.
  apply bool_decide_eq_true in H. by apply bool_decide_eq_true.
Qed.

Lemma sameDescription_congr (a b c : string) :
  sameDescription b c = true → sameDescription a b = sameDescription a c.
Proof.
  intros Hbc. destruct (sameDescription a c) eqn:Hac.
  - apply sameDescription_sym in Hbc.
    by apply (sameDescription_trans a c b).
  - destruct (sameDescription a b) eqn:Hab; [|done].
    rewrite (sameDescription_trans a b c Hab Hbc) in Hac. done.
Qed.

(** The test of [handleTaskCreated] succeeds exactly when the thread has
    an open duplicate. *)
Lemma exists_openDuplicates (db : Table) (thread description : string) :
  existsb (λ existingTask,
             sameDescription (r_description existingTask) description)
          (getTasksByThreadId db (Some thread))
  = negb (bool_decide (openDuplicates db thread description = [])).
Proof.
  unfold openDuplicates.
  induction (getTasksByThreadId db (Some thread)) as [|r rs IH]; [done|].
  simpl. rewrite filter_cons.
  destruct (sameDescription (r_description r) description) eqn:E.
  - rewrite decide_True by done. done.
  - rewrite decide_False by done. exact IH.
Qed.

Lemma handleTaskCreated_suppressed (db : Table) (task : Task) (thread : string) :
  threadId task = Some thread →
  openDuplicates db thread (description task) ≠ [] →
  handleTaskCreated db task = db.
Proof.
  intros Hthread Hdup. unfold handleTaskCreated.
  rewrite Hthread, exists_openDuplicates.
  by rewrite bool_decide_eq_false_2.
Qed.

Lemma openDuplicates_congr (db : Table) (thread d1 d2 : string) :
  sameDescription d1 d2 = true →
  openDuplicates db thread d2 = openDuplicates db thread d1.
Proof.
  intros Hsame. unfold openDuplicates.
  induction (getTasksByThreadId db (Some thread)) as [|r rs IH]; [done|].
  rewrite !filter_cons, IH.
  by rewrite (sameDescription_congr (r_description r) d1 d2 Hsame).
Qed.

Lemma sameDescription_refl (a : string) : sameDescription a a = true.
Proof. unfold sameDescription. by apply bool_decide_eq_true. Qed.

Lemma lowerChar_upperChar (c : ascii) : lowerChar (upperChar c) = lowerChar c.
Proof. destruct c as [[] [] [] [] [] [] [] []]; reflexivity. Qed.

Lemma toLowerCase_toUpperCase (s : string) :
  toLowerCase (toUpperCase s) = toLowerCase s.
Proof.
  induction s as [|c r IH]; [done|]. simpl. by rewrite lowerChar_upperChar, IH.
Qed.

(** The pair of the data model's example, [d] and [d] in upper case behind
    two spaces, has equal descriptions in the sense of the test. *)
Lemma sameDescription_upper_padded (d : string) :
  sameDescription d ("  " ++ toUpperCase d) = true.
Proof.
  unfold sameDescription. apply bool_decide_eq_true.
  change ("  " ++ toUpperCase d)
    with (String " "%char (String " "%char (toUpperCase d))).
  cbn [toLowerCase]. rewrite toLowerCase_toUpperCase. reflexivity.
Qed.

Lemma openDuplicates_stored (db : Table) (task : Task) (thread s : string) :
  thread ≠ "" →
  threadId task = Some thread →
  status task = Some s → s ≠ "COMPLETED" →
  openDuplicates (db ++ [rowOfTask task])%list thread (description task)
  = (openDuplicates db thread (description task) ++ [rowOfTask task])%list.
Proof.
  intros Hne Hthread Hstatus Hopen.
  unfold openDuplicates, getTasksByThreadId.
  rewrite filter_app, filter_app. f_equal.
  rewrite filter_cons, filter_nil.
  assert (selectedByThread (Some thread) (rowOfTask task) = true) as Hsel.
  { unfold selectedByThread, rowOfTask. simpl. rewrite Hthread, Hstatus.
    destruct thread as [|c r]; [done|]. simpl.
    rewrite bool_decide_eq_true_2 by done.
    by rewrite bool_decide_eq_false_2. }
  rewrite decide_True by done.
  rewrite filter_cons, filter_nil.
  rewrite decide_True; [done|]. apply sameDescription_refl.
Qed.

(** C5, as the code has it.  Take two creation attempts in one thread,
    of a thread identifier that is not empty, whose descriptions are equal
    after lower-casing and trimming, and let the store handle them one
    after the other: the handler of the second attempt starts on the table
    that the handler of the first has left.  If the first attempt is
    stored (its identifier is not a key of the store yet and its status is
    a string other than COMPLETED, not null) or is itself suppressed by an
    open duplicate, the second attempt is suppressed: the store is left as
    the first attempt left it.  The thread then holds as many open tasks of
    that description as before, and exactly one if it held none. *)
Theorem handleTaskCreated_second_attempt_suppressed
    (db : Table) (task1 task2 : Task) (thread : string) :
  thread ≠ "" →
  threadId task1 = Some thread →
  threadId task2 = Some thread →
  sameDescription (description task1) (description task2) = true →
  (openDuplicates db thread (description task1) ≠ []
   ∨ ((id task1 ∉ map r_id db)
      ∧ (∃ s, status task1 = Some s ∧ s ≠ "COMPLETED"))) →
  let db1 := handleTaskCreated db task1 in
  let db2 := handleTaskCreated db1 task2 in
  db2 = db1
  ∧ length (openDuplicates db2 thread (description task1))
    = Nat.max 1 (length (openDuplicates db thread (description task1))).
Proof.
  intros Hne Ht1 Ht2 Hsame Hfirst db1 db2.
  destruct (decide (openDuplicates db thread (description task1) = []))
    as [Hnone|Hsome].
  - destruct Hfirst as [Hdup|(Hfresh & s & Hstatus & Hopen)]; [done|].
    assert (db1 = (db ++ [rowOfTask task1])%list) as Hdb1.
    { unfold db1, handleTaskCreated.
      rewrite Ht1, exists_openDuplicates, Hnone. simpl.
      unfold insert. by rewrite bool_decide_eq_false_2. }
    assert (openDuplicates db1 thread (description task1) = [rowOfTask task1])
      as Hdup1.
    { rewrite Hdb1, (openDuplicates_stored db task1 thread s) by done.
      by rewrite Hnone. }
    assert (db2 = db1) as Hdb2.
    { unfold db2. apply (handleTaskCreated_suppressed db1 task2 thread Ht2).
      rewrite (openDuplicates_congr db1 thread _ _ Hsame), Hdup1. done. }
    split; [exact Hdb2|]. rewrite Hdb2, Hdup1, Hnone. reflexivity.
  - assert (db1 = db) as Hdb1.
    { unfold db1. by apply (handleTaskCreated_suppressed db task1 thread). }
    assert (db2 = db1) as Hdb2.
    { unfold db2. apply (handleTaskCreated_suppressed db1 task2 thread Ht2).
      by rewrite Hdb1, (openDuplicates_congr db thread _ _ Hsame). }
    split; [exact Hdb2|]. rewrite Hdb2, Hdb1.
    destruct (openDuplicates db thread (description task1)); [done|].
    simpl. lia.
Qed.

Lemma handleTaskCreated_second_attempt_suppressed_witness :
  let db1 := handleTaskCreated [Scenario.completedRow] Scenario.freshAttempt in
  let db2 := handleTaskCreated db1 Scenario.secondAttempt in
  db2 = db1
  ∧ length (openDuplicates db2 "thread-1" "Send report") = 1%nat.
Proof.
  apply (handleTaskCreated_second_attempt_suppressed
           [Scenario.completedRow] Scenario.freshAttempt
           Scenario.secondAttempt "thread-1").
  - discriminate.
  - reflexivity.
  - reflexivity.
  - vm_compute. reflexivity.
  - right. split.
    + vm_compute. intros H. apply list_elem_of_singleton in H. discriminate H.
    + exists "PENDING". split; [reflexivity|discriminate].
Defined.

(** C5, as the claim states it, fails.  The store holds a completed task;
    its content is extracted again and gets the same identifier, so the
    insertion is rejected by the primary key; the content is then
    extracted once more with another priority, and this second attempt is
    inserted, not suppressed. *)
Lemma handleTaskCreated_second_attempt_inserted :
  let db := [Scenario.completedRow] in
  let db1 := handleTaskCreated db Scenario.firstAttempt in
  let db2 := handleTaskCreated db1 Scenario.secondAttempt in
  threadId Scenario.firstAttempt = threadId Scenario.secondAttempt
  ∧ trim (toLowerCase (description Scenario.firstAttempt))
    = trim (toLowerCase (description Scenario.secondAttempt))
  ∧ db1 = db
  ∧ db2 = (db1 ++ [rowOfTask Scenario.secondAttempt])%list
  ∧ db2 ≠ db1.
Proof.
  intros db db1 db2.
  split; [reflexivity|]. split; [vm_compute; reflexivity|].
  split; [vm_compute; reflexivity|]. split; [vm_compute; reflexivity|].
  vm_compute. discriminate.
Qed.

End StoreProps.

(** * Further properties of the code *)

(** ** The durable store *)

Module StoreExtras.
Import DBService DBQueries.

(** The two outcomes of [handleTaskCreated]. *)
Lemma handleTaskCreated_cases (db : Table) (task : Task) :
  handleTaskCreated db task = db
  ∨ (handleTaskCreated db task = (db ++ [rowOfTask task])%list
     ∧ id task ∉ map r_id db).
Proof.
  unfold handleTaskCreated, insert.
  destruct (existsb _ _); [by left|].
  case_bool_decide as Hkey; [by left|]. right. done.
Qed.

Lemma handleTaskCreated_key_taken (db : Table) (task : Task) :
  id task ∈ map r_id db → handleTaskCreated db task = db.
Proof.
  intros Hkey. unfold handleTaskCreated, insert.
  destruct (existsb _ _); [done|].
  by rewrite bool_decide_eq_true_2.
Qed.

(** X1. Delivering the same ["task:created"] event twice stores what
    delivering it once stores. *)
Theorem handleTaskCreated_idempotent (db : Table) (task : Task) :
  handleTaskCreated (handleTaskCreated db task) task = handleTaskCreated db task.
Proof.
  destruct (handleTaskCreated_cases db task) as [Hsame|[Hnew _]].
  - by rewrite !Hsame.
  - rewrite Hnew. apply handleTaskCreated_key_taken.
    rewrite map_app. apply elem_of_app. right. apply elem_of_cons. by left.
Qed.

(** X2. The handlers keep the primary key a key and never drop a row:
    [handleTaskCreated] leaves the rows it found in place and adds at most
    one, [handleTaskUpdated] on a stored key keeps the list of keys, and
    keys that were pairwise distinct stay so. *)
Theorem handlers_keep_keys (db : Table) (task : Task) :
  (∃ added, handleTaskCreated db task = (db ++ added)%list
            ∧ (length added ≤ 1)%nat)
  ∧ (taskExists db (id task) = true →
     map r_id (handleTaskUpdated db task) = map r_id db)
  ∧ (NoDup (map r_id db) →
     NoDup (map r_id (handleTaskCreated db task))
     ∧ NoDup (map r_id (handleTaskUpdated db task))).
Proof.
  assert (NoDup (map r_id db) → NoDup (map r_id (handleTaskCreated db task)))
    as Hcreated.
  { intros Hnd. destruct (handleTaskCreated_cases db task) as [->|[-> Hfresh]];
      [done|].
    rewrite map_app. apply NoDup_app. split; [done|]. split.
    - intros k Hk Hk'. apply list_elem_of_singleton in Hk'. by subst.
    - apply NoDup_singleton. }
  assert (taskExists db (id task) = true →
          map r_id (handleTaskUpdated db task) = map r_id db) as Hupdated.
  { intros Hex. unfold handleTaskUpdated. rewrite Hex.
    destruct (getTaskById db (id task)) as [existing|]; [|done].
    rewrite map_map. apply map_ext. intros r.
    destruct (bool_decide_reflect (r_id r = id task)) as [Hid|Hid];
      [simpl; congruence|done]. }
  split; [|split; [exact Hupdated|]].
  - destruct (handleTaskCreated_cases db task) as [->|[-> _]].
    + exists []. split; [by rewrite app_nil_r|simpl; lia].
    + eexists. split; [reflexivity|]. simpl. lia.
  - intros Hnd. split; [by apply Hcreated|].
    destruct (taskExists db (id task)) eqn:Hex.
    + by rewrite Hupdated.
    + unfold handleTaskUpdated. rewrite Hex. by apply Hcreated.
Qed.

Lemma handlers_keep_keys_witness :
  let db := [Scenario.completedRow] in
  taskExists db (id Scenario.firstAttempt) = true
  ∧ map r_id (handleTaskUpdated db Scenario.firstAttempt) = map r_id db
  ∧ NoDup (map r_id (handleTaskCreated db Scenario.secondAttempt)).
Proof.
  intros db.
  destruct (handlers_keep_keys db Scenario.firstAttempt) as (_ & Hupd & _).
  destruct (handlers_keep_keys db Scenario.secondAttempt) as (_ & _ & Hnd).
  split; [reflexivity|]. split; [apply Hupd; reflexivity|].
  apply Hnd. apply NoDup_singleton.
Defined.

Lemma no_thread_no_rows (db : Table) : getTasksByThreadId db None = [].
Proof.
  unfold getTasksByThreadId. induction db as [|r rs IH]; [done|].
  rewrite filter_cons. by rewrite decide_False.
Qed.

(** X3. A task without thread is never taken for a duplicate: when its
    identifier is free it is inserted, whatever the table holds. *)
Theorem handleTaskCreated_without_thread (db : Table) (task : Task) :
  threadId task = None →
  id task ∉ map r_id db →
  handleTaskCreated db task = (db ++ [rowOfTask task])%list.
Proof.
  intros Hthread Hfresh. unfold handleTaskCreated.
  rewrite Hthread, no_thread_no_rows. simpl.
  unfold insert. by rewrite bool_decide_eq_false_2.
Qed.

Lemma getTaskById_missing (db : Table) (taskId : string) :
  taskId ∉ map r_id db → getTaskById db taskId = None.
Proof.
  unfold getTaskById. intros Hmiss.
  induction db as [|r rs IH]; [done|]. rewrite filter_cons.
  destruct (decide (r_id r = taskId)) as [Heq|Hne].
  - destruct Hmiss. simpl. apply elem_of_cons. by left.
  - apply IH. intros Hin. apply Hmiss. simpl. apply elem_of_cons. by right.
Qed.

Lemma taskExists_getTaskById (db : Table) (taskId : string) :
  taskExists db taskId = true →
  ∃ r, getTaskById db taskId = Some r ∧ r_id r = taskId.
Proof.
  unfold taskExists, getTaskById. intros Hex.
  apply bool_decide_eq_true in Hex.
  induction db as [|r0 rs IH]; [by apply elem_of_nil in Hex|].
  rewrite filter_cons. destruct (decide (r_id r0 = taskId)) as [Heq|Hne].
  - exists r0. done.
  - apply IH. simpl in Hex. apply elem_of_cons in Hex as [Heq|Hin]; [|done].
    by destruct Hne.
Qed.

Lemma filter_key_map (f : Row → Row) (db : Table) (taskId : string) :
  (∀ r, r_id (f r) = r_id r) →
  filter (λ r, r_id r = taskId) (map f db)
  = map f (filter (λ r, r_id r = taskId) db).
Proof.
  intros Hkey. induction db as [|r rs IH]; [done|].
  simpl. rewrite !filter_cons, Hkey, IH.
  by destruct (decide (r_id r = taskId)).
Qed.

Lemma updated_key (task : Task) (existing r : Row) :
  r_id (if bool_decide (r_id r = id task)
        then updatedRow task existing else r) = r_id r.
Proof.
  destruct (bool_decide_reflect (r_id r = id task)) as [Hid|Hid];
    [simpl; congruence|done].
Qed.

(** X4. Reading back after [handleTaskUpdated] on a stored key: the row has
    the description, priority and status of the update, it keeps its thread
    and its message when the update names none, and the rows of the other
    keys are as they were. *)
Theorem handleTaskUpdated_read_back (db : Table) (task : Task) :
  taskExists db (id task) = true →
  ∃ existing updated,
    getTaskById db (id task) = Some existing
    ∧ getTaskById (handleTaskUpdated db task) (id task) = Some updated
    ∧ r_description updated = description task
    ∧ r_priority updated = priority task
    ∧ r_status updated = status task
    ∧ (truthy_str (threadId task) = false →
       r_thread_id updated = r_thread_id existing)
    ∧ (truthy_str (emailId task) = false →
       r_email_id updated = r_email_id existing)
    ∧ ∀ other, other ≠ id task →
        getTaskById (handleTaskUpdated db task) other = getTaskById db other.
Proof.
  intros Hex.
  destruct (taskExists_getTaskById db (id task) Hex) as (existing & Hget & Hid).
  exists existing, (updatedRow task existing).
  unfold handleTaskUpdated. rewrite Hex, Hget.
  split; [done|]. split.
  - unfold getTaskById in *.
    rewrite filter_key_map by apply updated_key.
    destruct (filter (λ r, r_id r = id task) db) as [|r0 rs] eqn:Hf;
      [discriminate Hget|].
    injection Hget as ->. simpl.
    by rewrite bool_decide_eq_true_2.
  - do 3 (split; [done|]).
    split; [unfold updatedRow, or_opt; simpl; by intros ->|].
    split; [unfold updatedRow, or_opt; simpl; by intros ->|].
    intros other Hother. unfold getTaskById.
    rewrite filter_key_map by apply updated_key.
    clear Hex Hget Hid. induction db as [|r rs IH]; [done|].
    rewrite filter_cons. destruct (decide (r_id r = other)) as [Heq|Hne].
    + simpl. rewrite bool_decide_eq_false_2; [done|congruence].
    + apply IH.
Qed.

Lemma handleTaskUpdated_read_back_witness :
  ∃ updated,
    getTaskById
      (handleTaskUpdated [Scenario.completedRow]
         (with_provenance None None Scenario.firstAttempt))
      "task_9f2c" = Some updated
    ∧ r_status updated = Some "PENDING"
    ∧ r_thread_id updated = Some "thread-1".
Proof.
  destruct (handleTaskUpdated_read_back [Scenario.completedRow]
              (with_provenance None None Scenario.firstAttempt))
    as (existing & updated & Hget & Hback & _ & _ & Hstatus & Hthread & _);
    [reflexivity|].
  exists updated. split; [exact Hback|]. split; [exact Hstatus|].
  rewrite Hthread by reflexivity.
  vm_compute in Hget. injection Hget as <-. reflexivity.
Defined.

(** X5. Once [handleTaskUpdated] has stored the status COMPLETED for a
    task, neither [getTasksByThreadId] nor [getTasksByEmailId] lists a row
    of that key, for any thread and any message. *)
Theorem handleTaskUpdated_completed_hidden (db : Table) (task : Task) :
  taskExists db (id task) = true →
  status task = Some "COMPLETED" →
  ∀ r key,
    (r ∈ getTasksByThreadId (handleTaskUpdated db task) key
     ∨ r ∈ getTasksByEmailId (handleTaskUpdated db task) key) →
    r_id r ≠ id task.
Proof.
  intros Hex Hstatus r key Hin.
  destruct (taskExists_getTaskById db (id task) Hex) as (existing & Hget & _).
  unfold handleTaskUpdated in Hin. rewrite Hex, Hget in Hin.
  assert (∀ sel : Row → bool,
            (∀ x, r_status x = Some "COMPLETED" → sel x = false) →
            r ∈ filter (λ x, sel x = true)
                  (map (λ x, if bool_decide (r_id x = id task)
                             then updatedRow task existing else x) db) →
            r_id r ≠ id task) as Hgen.
  { intros sel Hsel Hr. apply list_elem_of_filter in Hr as [Hselr Hr].
    apply list_elem_of_fmap in Hr as (x & -> & _).
    destruct (bool_decide_reflect (r_id x = id task)) as [Hid|Hid]; [|done].
    rewrite Hsel in Hselr; [done|]. exact Hstatus. }
  destruct Hin as [Hin|Hin].
  - apply (Hgen (selectedByThread key)); [|exact Hin].
    intros x Hx. unfold selectedByThread. rewrite Hx.
    destruct key, (r_thread_id x); try done.
    rewrite (bool_decide_eq_true_2 ("COMPLETED" = "COMPLETED")) by done.
    by rewrite andb_false_r.
  - apply (Hgen (selectedByEmail key)); [|exact Hin].
    intros x Hx. unfold selectedByEmail. rewrite Hx.
    destruct key, (r_email_id x); try done.
    rewrite (bool_decide_eq_true_2 ("COMPLETED" = "COMPLETED")) by done.
    by rewrite andb_false_r.
Qed.

Lemma handleTaskUpdated_completed_hidden_witness :
  let db := handleTaskCreated [] Scenario.freshAttempt in
  let done_ := with_status (Some "COMPLETED") Scenario.freshAttempt in
  length (getTasksByThreadId db (Some "thread-1")) = 1%nat
  ∧ ∀ r, r ∈ getTasksByThreadId (handleTaskUpdated db done_) (Some "thread-1") →
         r_id r ≠ "task_77d0".
Proof.
  intros db done_. split; [reflexivity|]. intros r Hr.
  apply (handleTaskUpdated_completed_hidden db done_ eq_refl eq_refl r
           (Some "thread-1")).
  by left.
Defined.

(** X6. [handleTaskCreated] never overwrites: a key that is stored keeps
    its row.  And a task whose key is free and whose thread holds no open
    task of its description is read back as it was sent. *)
Theorem handleTaskCreated_read_back (db : Table) (task : Task) :
  (∀ key r, getTaskById db key = Some r →
            getTaskById (handleTaskCreated db task) key = Some r)
  ∧ (id task ∉ map r_id db →
     (∀ thread, threadId task = Some thread →
                openDuplicates db thread (description task) = []) →
     getTaskById (handleTaskCreated db task) (id task) = Some (rowOfTask task)).
Proof.
  split.
  - intros key r Hget.
    destruct (handleTaskCreated_cases db task) as [->|[-> _]]; [done|].
    unfold getTaskById in *. rewrite filter_app.
    destruct (filter (λ r, r_id r = key) db); [discriminate Hget|done].
  - intros Hfresh Hnodup.
    assert (handleTaskCreated db task = (db ++ [rowOfTask task])%list) as ->.
    { destruct (threadId task) as [thread|] eqn:Hthread.
      - unfold handleTaskCreated. rewrite Hthread.
        rewrite StoreProps.exists_openDuplicates, (Hnodup thread eq_refl).
        simpl. unfold insert. by rewrite bool_decide_eq_false_2.
      - unfold handleTaskCreated. rewrite Hthread, no_thread_no_rows. simpl.
        unfold insert. by rewrite bool_decide_eq_false_2. }
    pose proof (getTaskById_missing db (id task) Hfresh) as Hnone.
    unfold getTaskById in *. rewrite filter_app.
    destruct (filter (λ r, r_id r = id task) db); [|discriminate Hnone].
    simpl. rewrite filter_cons. by rewrite decide_True.
Qed.

Lemma handleTaskCreated_read_back_witness :
  getTaskById (handleTaskCreated [Scenario.completedRow] Scenario.freshAttempt)
              "task_77d0"
  = Some (rowOfTask Scenario.freshAttempt)
  ∧ getTaskById (handleTaskCreated [Scenario.completedRow] Scenario.freshAttempt)
                "task_9f2c"
    = Some Scenario.completedRow.
Proof.
  destruct (handleTaskCreated_read_back [Scenario.completedRow]
              Scenario.freshAttempt) as [Hkeep Hnew].
  split.
  - apply Hnew.
    + vm_compute. intros H. apply list_elem_of_singleton in H. discriminate H.
    + intros thread [= <-]. vm_compute. reflexivity.
  - apply Hkeep. reflexivity.
Defined.

Lemma handleTaskCreated_without_thread_witness :
  handleTaskCreated [Scenario.completedRow]
    (with_provenance None None Scenario.freshAttempt)
  = [Scenario.completedRow;
     rowOfTask (with_provenance None None Scenario.freshAttempt)].
Proof.
  apply (handleTaskCreated_without_thread [Scenario.completedRow]
           (with_provenance None None Scenario.freshAttempt)).
  - reflexivity.
  - vm_compute. intros H. apply list_elem_of_singleton in H. discriminate H.
Defined.

(** X27. An update for a task that has no row is handed to
    [handleTaskCreated], with its test for duplicates: when the thread of
    the task holds an open task of the same description, the update is
    dropped and the task still has no row. *)
Theorem handleTaskUpdated_dropped (db : Table) (task : Task) (thread : string) :
  taskExists db (id task) = false →
  threadId task = Some thread →
  openDuplicates db thread (description task) ≠ [] →
  handleTaskUpdated db task = db
  ∧ getTaskById (handleTaskUpdated db task) (id task) = None.
Proof.
  intros Hmiss Hthread Hdup.
  assert (handleTaskUpdated db task = db) as ->.
  { unfold handleTaskUpdated. rewrite Hmiss.
    by apply (StoreProps.handleTaskCreated_suppressed db task thread). }
  split; [done|]. apply getTaskById_missing.
  unfold taskExists in Hmiss. by apply bool_decide_eq_false in Hmiss.
Qed.

Lemma handleTaskUpdated_dropped_witness :
  let db := handleTaskCreated [] Scenario.freshAttempt in
  let done_ := with_status (Some "COMPLETED") Scenario.secondAttempt in
  handleTaskUpdated db done_ = db
  ∧ getTaskById (handleTaskUpdated db done_) "task_41ab" = None.
Proof.
  intros db done_.
  apply (handleTaskUpdated_dropped db done_ "thread-1").
  - reflexivity.
  - reflexivity.
  - vm_compute. discriminate.
Defined.



End StoreExtras.

(** ** The task index *)

Module IndexExtras.
Import TaskService.

Lemma createTask_run (generated : string) (ownId : bool) (taskData : Task)
    (st : State) :
  let taskId :=
    or_str (if ownId then Some (id taskData) else None) generated in
  let task := with_status (Some (or_str (status taskData) "PENDING"))
                          (if ownId then taskData else with_id taskId taskData) in
  ∃ st', createTask generated ownId taskData st = (st', Returned task)
         ∧ tasksMap st' = <[taskId := task]> (tasksMap st)
         ∧ emitted st' = (emitted st ++ [TaskCreated task])%list
         ∧ similarityCache st' = similarityCache st
         ∧ tasksByEmail st'
           = match emailId taskData with
             | Some (String c r) =>
                 <[String c r :=
                     (default [] (tasksByEmail st !! String c r) ++ [taskId])%list]>
                   (tasksByEmail st)
             | _ => tasksByEmail st
             end.
Proof.
  intros taskId task. unfold createTask, bind, modify, ret. fold taskId task.
  assert (emailId task = emailId taskData) as ->.
  { unfold task. by destruct ownId. }
  destruct (emailId taskData) as [[|c r]|]; simpl; eexists; done.
Qed.

Lemma created_id (generated : string) (ownId : bool) (taskData : Task) :
  (ownId = true → id taskData ≠ "") →
  id (if ownId then taskData
      else with_id (or_str (if ownId then Some (id taskData) else None)
                           generated) taskData)
  = or_str (if ownId then Some (id taskData) else None) generated.
Proof.
  intros Hid. destruct ownId; [|reflexivity].
  simpl. destruct (id taskData) as [|c r]; [by destruct Hid|reflexivity].
Qed.

(** X7. A task made by [createTask] from data without an own identifier,
    or with a non-empty one, can be updated: [updateTask] on the identifier
    of the returned task does not fail, whatever the durable store holds,
    and the updated task keeps the thread and the message of the created
    one when the update names none.  When the data has an own identifier
    that is the empty string, the returned task has the empty identifier
    but is stored under the generated one, and [updateTask] on the
    identifier of the returned task throws "Task  not found" unless the
    empty identifier is known to the index or to the durable store. *)
Theorem createTask_then_updateTask (getTaskById : string → option Task)
    (generated : string) (ownId : bool) (taskData updatedData : Task)
    (st : State) :
  ∃ st1 created,
    createTask generated ownId taskData st = (st1, Returned created)
    ∧ ((ownId = true → id taskData ≠ "") →
       ∃ st2 updated,
         updateTask getTaskById (id created) updatedData st1
         = (st2, Returned updated)
         ∧ tasksMap st2 !! id created = Some updated
         ∧ (truthy_str (threadId updatedData) = false →
            threadId updated = threadId taskData)
         ∧ (truthy_str (emailId updatedData) = false →
            emailId updated = emailId taskData))
    ∧ (ownId = true → id taskData = "" → generated ≠ "" →
       tasksMap st !! "" = None → getTaskById "" = None →
       id created = ""
       ∧ tasksMap st1 !! generated = Some created
       ∧ updateTask getTaskById (id created) updatedData st1
         = (st1, Thrown (OtherError "Task  not found"))).
Proof.
  destruct (createTask_run generated ownId taskData st)
    as (st1 & Hrun & Hmap & _).
  set (taskId := or_str _ generated) in *.
  set (created := with_status _ _) in *.
  exists st1, created. split; [exact Hrun|]. split.
  - intros Hid.
    assert (id created = taskId) as ->.
    { unfold created. cbn [with_status id]. by apply created_id. }
    assert (threadId created = threadId taskData
            ∧ emailId created = emailId taskData) as [Hthread Hmail].
    { unfold created. by destruct ownId. }
    unfold updateTask, loadTaskFromDb, bind, gets, modify, ret, throw.
    rewrite Hmap, lookup_insert_eq. simpl.
    do 2 eexists. split; [reflexivity|]. simpl.
    split; [by rewrite lookup_insert_eq|].
    unfold created in Hthread, Hmail. cbn [with_status threadId emailId] in *.
    unfold or_opt. rewrite Hthread, Hmail. split; by intros ->.
  - intros -> Hempty Hgenerated Hindex Hstore.
    assert (taskId = generated) as HtaskId.
    { unfold taskId. rewrite Hempty. simpl.
      destruct generated; [by destruct Hgenerated|reflexivity]. }
    assert (id created = "") as Hcreated.
    { unfold created. cbn [with_status id]. exact Hempty. }
    rewrite Hcreated, <- HtaskId.
    split; [reflexivity|]. split; [by rewrite Hmap, lookup_insert_eq|].
    unfold updateTask, loadTaskFromDb, bind, gets, modify, ret, throw.
    rewrite Hmap, lookup_insert_ne, Hindex, Hstore; [reflexivity|].
    rewrite HtaskId. exact Hgenerated.
Qed.

(** X8. [createTask] does not look for an earlier task of the same
    identifier: created twice from the same data, the task is stored once
    in the index by identifier, but the list of its message names it
    twice, and two events are emitted. *)
Theorem createTask_twice (generated : string) (taskData : Task) (st : State)
    (message : string) :
  id taskData ≠ "" →
  emailId taskData = Some message → message ≠ "" →
  ∃ st1 st2 task,
    createTask generated true taskData st = (st1, Returned task)
    ∧ createTask generated true taskData st1 = (st2, Returned task)
    ∧ tasksMap st2 = tasksMap st1
    ∧ tasksByEmail st2 !! message
      = Some (default [] (tasksByEmail st !! message)
              ++ [id taskData; id taskData])%list
    ∧ emitted st2 = (emitted st ++ [TaskCreated task; TaskCreated task])%list.
Proof.
  intros Hid Hmail Hmessage.
  destruct (createTask_run generated true taskData st)
    as (st1 & Hrun1 & Hmap1 & Hev1 & _ & Hidx1).
  destruct (createTask_run generated true taskData st1)
    as (st2 & Hrun2 & Hmap2 & Hev2 & _ & Hidx2).
  assert (or_str (Some (id taskData)) generated = id taskData) as Hkey.
  { destruct (id taskData); [done|reflexivity]. }
  rewrite Hkey in *. rewrite Hmail in *.
  destruct message as [|c r]; [done|].
  eexists st1, st2, _. split; [exact Hrun1|]. split; [exact Hrun2|].
  split; [by rewrite Hmap2, Hmap1, insert_insert_eq|].
  split.
  - rewrite Hidx2, lookup_insert_eq, Hidx1, lookup_insert_eq. simpl.
    by rewrite <- app_assoc.
  - rewrite Hev2, Hev1. by rewrite <- app_assoc.
Qed.

Lemma createTask_twice_witness :
  let taskData := with_provenance (Some "msg-1") (Some "thread-1")
                                  Scenario.sendReport in
  ∃ st1 st2 task,
    createTask "task_new" true taskData Scenario.emptyState
    = (st1, Returned task)
    ∧ createTask "task_new" true taskData st1 = (st2, Returned task)
    ∧ tasksByEmail st2 !! "msg-1" = Some ["task_a"; "task_a"].
Proof.
  intros taskData.
  destruct (createTask_twice "task_new" taskData Scenario.emptyState "msg-1")
    as (st1 & st2 & task & Hrun1 & Hrun2 & _ & Hidx & _);
    [discriminate|reflexivity|discriminate|].
  exists st1, st2, task. split; [exact Hrun1|]. split; [exact Hrun2|].
  rewrite Hidx. reflexivity.
Defined.

Lemma createTask_then_updateTask_witness :
  (∃ st1 created st2 updated,
     createTask "task_new" true Scenario.sendReport Scenario.emptyState
     = (st1, Returned created)
     ∧ updateTask Scenario.noRows (id created)
         (with_provenance None None Scenario.reviewBudget) st1
       = (st2, Returned updated)
     ∧ threadId updated = Some "thread-1")
  ∧ (∃ st1 created,
       createTask "task_new" true (with_id "" Scenario.sendReport)
                  Scenario.emptyState
       = (st1, Returned created)
       ∧ id created = ""
       ∧ tasksMap st1 !! "task_new" = Some created
       ∧ updateTask Scenario.noRows (id created) Scenario.reviewBudget st1
         = (st1, Thrown (OtherError "Task  not found"))).
Proof.
  split.
  - destruct (createTask_then_updateTask Scenario.noRows "task_new" true
                Scenario.sendReport
                (with_provenance None None Scenario.reviewBudget)
                Scenario.emptyState)
      as (st1 & created & Hrun1 & Hupdate & _).
    destruct Hupdate as (st2 & updated & Hrun2 & _ & Hthread & _);
      [discriminate|].
    exists st1, created, st2, updated.
    split; [exact Hrun1|]. split; [exact Hrun2|]. by apply Hthread.
  - destruct (createTask_then_updateTask Scenario.noRows "task_new" true
                (with_id "" Scenario.sendReport) Scenario.reviewBudget
                Scenario.emptyState)
      as (st1 & created & Hrun1 & _ & Hempty).
    destruct Hempty as (Hid & Hstored & Hthrown);
      [reflexivity|reflexivity|discriminate|reflexivity|reflexivity|].
    exists st1, created. done.
Defined.

End IndexExtras.

(** ** Updates and propagation *)

Module UpdateExtras.
Import TaskService PropagationProps.

Lemma updateTask_not_found (getTaskById : string → option Task)
    (taskId : string) (updatedData : Task) (st : State) :
  tasksMap st !! taskId = None → getTaskById taskId = None →
  updateTask getTaskById taskId updatedData st
  = (st, Thrown (OtherError ("Task " ++ taskId ++ " not found"))).
Proof.
  intros Hmiss Hdb.
  unfold updateTask, loadTaskFromDb, bind, gets, modify, ret, throw.
  by rewrite Hmiss, Hdb.
Qed.

(** X9. [updateTask] on an identifier that neither the index nor the
    durable store knows throws "Task ... not found" and writes nothing; on
    an identifier that only the durable store knows it succeeds, and the
    index then holds the updated task with the thread and the message of
    the stored one when the update names none. *)
Theorem updateTask_unknown_or_stored (getTaskById : string → option Task)
    (taskId : string) (updatedData : Task) (st : State) :
  tasksMap st !! taskId = None →
  (getTaskById taskId = None →
   updateTask getTaskById taskId updatedData st
   = (st, Thrown (OtherError ("Task " ++ taskId ++ " not found"))))
  ∧ (∀ stored, getTaskById taskId = Some stored →
       ∃ st' updated,
         updateTask getTaskById taskId updatedData st = (st', Returned updated)
         ∧ tasksMap st' !! taskId = Some updated
         ∧ (truthy_str (threadId updatedData) = false →
            threadId updated = threadId stored)
         ∧ (truthy_str (emailId updatedData) = false →
            emailId updated = emailId stored)
         ∧ ∀ other, other ≠ taskId →
             tasksMap st' !! other = tasksMap st !! other).
Proof.
  intros Hmiss. split.
  - intros Hdb. by apply updateTask_not_found.
  - intros stored Hdb.
    unfold updateTask, loadTaskFromDb, bind, gets, modify, ret, throw.
    rewrite Hmiss, Hdb. simpl. do 2 eexists. split; [reflexivity|]. simpl.
    split; [by rewrite lookup_insert_eq|].
    unfold or_opt. split; [by intros ->|]. split; [by intros ->|].
    intros other Hother. by rewrite !lookup_insert_ne.
Qed.

Lemma updateTask_unknown_or_stored_witness :
  updateTask Scenario.noRows "task_zz" Scenario.sendReport Scenario.emptyState
  = (Scenario.emptyState, Thrown (OtherError "Task task_zz not found"))
  ∧ ∃ st' updated,
      updateTask (λ _, Some Scenario.bookRoom) "task_c"
        (with_provenance None None Scenario.sendInvites) Scenario.emptyState
      = (st', Returned updated)
      ∧ threadId updated = Some "thread-2".
Proof.
  split.
  - apply (updateTask_unknown_or_stored Scenario.noRows "task_zz"
             Scenario.sendReport Scenario.emptyState); reflexivity.
  - destruct (updateTask_unknown_or_stored (λ _, Some Scenario.bookRoom)
                "task_c" (with_provenance None None Scenario.sendInvites)
                Scenario.emptyState eq_refl) as [_ Hstored].
    destruct (Hstored Scenario.bookRoom eq_refl)
      as (st' & updated & Hrun & _ & Hthread & _).
    exists st', updated. split; [exact Hrun|]. by apply Hthread.
Defined.

Section WithStore.

Variable getTaskById : string → option Task.

Lemma updateTask_frame (taskId : string) (data : Task) (st st' : State)
    (outcome : Completion Task) :
  updateTask getTaskById taskId data st = (st', outcome) →
  (∀ other, other ≠ taskId → tasksMap st' !! other = tasksMap st !! other)
  ∧ tasksByEmail st' = tasksByEmail st
  ∧ similarityCache st' = similarityCache st.
Proof.
  unfold updateTask, loadTaskFromDb, bind, gets, modify, ret, throw.
  destruct (tasksMap st !! taskId) as [t|]; simpl.
  - intros [= <- <-]. simpl. split; [|done].
    intros other Hother. by rewrite lookup_insert_ne.
  - destruct (getTaskById taskId) as [t|]; simpl; intros [= <- <-]; [|done].
    simpl. split; [|done]. intros other Hother. by rewrite !lookup_insert_ne.
Qed.

Lemma applyUpdates_frame (us : list (string * Task)) (st st' : State)
    (outcome : Completion unit) :
  applyUpdates getTaskById us st = (st', outcome) →
  (∀ other, other ∉ map fst us → tasksMap st' !! other = tasksMap st !! other)
  ∧ tasksByEmail st' = tasksByEmail st
  ∧ similarityCache st' = similarityCache st.
Proof.
  revert st. induction us as [|u us IH]; intros st Hrun.
  - injection Hrun as <- <-. done.
  - unfold applyUpdates in Hrun. simpl in Hrun.
    unfold applyUpdate, bind at 1 2, ret in Hrun.
    destruct (updateTask getTaskById u.1 u.2 st) as [st1 [t|e]] eqn:Hu.
    + apply updateTask_frame in Hu as (Hm & He & Hc).
      apply IH in Hrun as (Hm' & He' & Hc').
      split; [|split; congruence].
      intros other Hother. rewrite Hm', Hm; [done| |].
      * intros ->. apply Hother. simpl. apply elem_of_cons. by left.
      * intros Hin. apply Hother. simpl. apply elem_of_cons. by right.
    + injection Hrun as <- <-.
      apply updateTask_frame in Hu as (Hm & He & Hc). split; [|done].
      intros other Hother. apply Hm. intros ->. apply Hother.
      simpl. apply elem_of_cons. by left.
Qed.

(** Every update of a run writes the identifier of a task of the batch
    whose description some task of the batch lists as a dependency. *)
Lemma updatesOf_keys (results : list ExtractionResult) (u : string * Task) :
  u ∈ updatesOf results →
  ∃ task depTask,
    task ∈ allTasksOf results ∧ depTask ∈ allTasksOf results
    ∧ description depTask ∈ dependencies task
    ∧ u.1 = id depTask.
Proof.
  unfold updatesOf. intros Hu.
  apply list_elem_of_In, in_flat_map in Hu as (task & Htask & Hu).
  apply list_elem_of_In in Htask.
  unfold updatesFor in Hu. destruct (dependencies task) as [|d ds] eqn:Hdeps;
    [by destruct Hu|].
  apply in_flat_map in Hu as (depTask & Hdep & Hu).
  apply list_elem_of_In, list_elem_of_filter in Hdep as [Hinc Hdep].
  exists task, depTask. rewrite Hdeps. split; [done|]. split; [done|].
  split.
  - unfold includes in Hinc. by apply bool_decide_eq_true in Hinc.
  - destruct (_ <? _)%nat; [|by destruct Hu].
    destruct Hu as [<-|[]]. done.
Qed.

Lemma applyUpdates_app (us1 us2 : list (string * Task)) (st : State) :
  applyUpdates getTaskById (us1 ++ us2) st
  = match applyUpdates getTaskById us1 st with
    | (st1, Returned _) => applyUpdates getTaskById us2 st1
    | (st1, Thrown e) => (st1, Thrown e)
    end.
Proof.
  unfold applyUpdates. rewrite forEach_app. unfold bind.
  by destruct (forEach _ us1 st) as [st1 [[]|e]].
Qed.

End WithStore.

(** X10. Dependencies that name no task of the batch are skipped without
    error: when no task of the batch has a description that some task of
    the batch lists as a dependency, [prioritizeTasks] returns and writes
    nothing, even with an empty index and an empty durable store. *)
Theorem prioritizeTasks_unresolved (getTaskById : string → option Task)
    (results : list ExtractionResult) (st : State) :
  (∀ task depTask,
     task ∈ allTasksOf results → depTask ∈ allTasksOf results →
     description depTask ∉ dependencies task) →
  prioritizeTasks getTaskById results st = (st, Returned tt).
Proof.
  intros Hnone. rewrite prioritizeTasks_updates.
  destruct (updatesOf results) as [|u us] eqn:Hus; [done|].
  destruct (updatesOf_keys results u) as (task & depTask & Ht & Hd & Hin & _).
  { rewrite Hus. apply elem_of_cons. by left. }
  by destruct (Hnone task depTask Ht Hd).
Qed.

Lemma prioritizeTasks_unresolved_witness :
  prioritizeTasks Scenario.noRows
    [mkResult [Scenario2.fileTaxes; Scenario.sendReport]] Scenario.emptyState
  = (Scenario.emptyState, Returned tt).
Proof.
  apply prioritizeTasks_unresolved. intros task depTask Ht Hd Hin.
  apply elem_of_cons in Ht as [->|Ht];
    [|apply list_elem_of_singleton in Ht as ->; by apply elem_of_nil in Hin].
  apply list_elem_of_singleton in Hin.
  apply elem_of_cons in Hd as [->|Hd]; [discriminate Hin|].
  apply list_elem_of_singleton in Hd as ->. discriminate Hin.
Defined.

(** X11. Whatever its outcome, a run of [prioritizeTasks] leaves the
    stored task of an identifier as it was, unless the identifier is that of
    a task of the batch whose description a task of the batch lists as a
    dependency; it does not touch the index by message nor the similarity
    cache. *)
Theorem prioritizeTasks_frame (getTaskById : string → option Task)
    (results : list ExtractionResult) (st st' : State)
    (outcome : Completion unit) (taskId : string) :
  prioritizeTasks getTaskById results st = (st', outcome) →
  (∀ task depTask,
     task ∈ allTasksOf results → depTask ∈ allTasksOf results →
     description depTask ∈ dependencies task → id depTask ≠ taskId) →
  tasksMap st' !! taskId = tasksMap st !! taskId
  ∧ tasksByEmail st' = tasksByEmail st
  ∧ similarityCache st' = similarityCache st.
Proof.
  rewrite prioritizeTasks_updates. intros Hrun Hfree.
  apply applyUpdates_frame in Hrun as (Hm & He & Hc).
  split; [|done]. apply Hm. intros Hin.
  apply list_elem_of_fmap in Hin as (u & -> & Hu).
  destruct (updatesOf_keys results u Hu) as (task & depTask & Ht & Hd & Hdep & Hid).
  by apply (Hfree task depTask Ht Hd Hdep).
Qed.

Lemma prioritizeTasks_frame_witness :
  let batch := [mkResult [Scenario.bookRoom; Scenario.sendInvites]] in
  let st := Scenario.stateOf [Scenario.bookRoom; Scenario.sendInvites] in
  tasksMap (prioritizeTasks Scenario.noRows batch st).1 !! "task_d"
  = Some Scenario.sendInvites.
Proof.
  intros batch st.
  destruct (prioritizeTasks_frame Scenario.noRows batch st
              (prioritizeTasks Scenario.noRows batch st).1
              (prioritizeTasks Scenario.noRows batch st).2 "task_d")
    as (Hkeep & _).
  - by destruct (prioritizeTasks Scenario.noRows batch st).
  - intros task depTask Ht Hd Hdep.
    apply elem_of_cons in Ht as [->|Ht];
      [by apply elem_of_nil in Hdep|].
    apply list_elem_of_singleton in Ht as ->.
    apply list_elem_of_singleton in Hdep.
    apply elem_of_cons in Hd as [->|Hd]; [discriminate|].
    apply list_elem_of_singleton in Hd as ->. discriminate Hdep.
  - rewrite Hkeep. reflexivity.
Defined.

(** X12. [prioritizeTasks] does not catch the failure of an update: when
    the updates of a run reach one for an identifier that neither the index
    nor the durable store knows, the run rejects with "Task ... not found",
    the updates issued before stay written and the later ones are not
    issued. *)
Theorem prioritizeTasks_partial (getTaskById : string → option Task)
    (results : list ExtractionResult) (st st1 : State)
    (before after : list (string * Task)) (taskId : string) (data : Task) :
  updatesOf results = (before ++ (taskId, data) :: after)%list →
  applyUpdates getTaskById before st = (st1, Returned tt) →
  tasksMap st1 !! taskId = None →
  getTaskById taskId = None →
  prioritizeTasks getTaskById results st
  = (st1, Thrown (OtherError ("Task " ++ taskId ++ " not found"))).
Proof.
  intros Hus Hbefore Hmiss Hdb.
  rewrite prioritizeTasks_updates, Hus, applyUpdates_app, Hbefore.
  unfold applyUpdates. cbn [forEach]. unfold applyUpdate, bind at 1 2.
  cbn [fst snd]. by rewrite (updateTask_not_found _ _ _ _ Hmiss Hdb).
Qed.

Lemma prioritizeTasks_partial_witness :
  let st := Scenario.stateOf [Scenario.bookRoom; Scenario2.planEvent] in
  ∃ st1,
    prioritizeTasks Scenario.noRows Scenario2.eventBatch st
    = (st1, Thrown (OtherError "Task task_e not found"))
    ∧ priority <$> tasksMap st !! "task_c" = Some "LOW"
    ∧ priority <$> tasksMap st1 !! "task_c" = Some "MEDIUM".
Proof.
  intros st.
  exists (applyUpdates Scenario.noRows
            [("task_c", with_priority "MEDIUM" Scenario.bookRoom)] st).1.
  split; [|split; vm_compute; reflexivity].
  apply (prioritizeTasks_partial Scenario.noRows Scenario2.eventBatch st _
           [("task_c", with_priority "MEDIUM" Scenario.bookRoom)] []
           "task_e" (with_priority "MEDIUM" Scenario2.orderFood)).
  - vm_compute. reflexivity.
  - vm_compute. reflexivity.
  - vm_compute. reflexivity.
  - reflexivity.
Defined.

End UpdateExtras.

(** ** Aggregates of a cluster *)

Module AggregateExtras.
Import TaskService.

Lemma getHighestPriority_fold (tasks : list Task) (start : string) :
  Forall (λ t, priority t ∈ ["HIGH"; "MEDIUM"; "LOW"]) tasks →
  start = "LOW" ∨ start = "MEDIUM" →
  fold_left
    (λ highest task,
       if (getPriorityValue (priority task) <? getPriorityValue highest)%nat
       then priority task else highest)
    tasks start
  = if bool_decide (start = "MEDIUM"
                    ∨ Exists (λ t, priority t = "MEDIUM") tasks)
    then "MEDIUM" else "LOW".
Proof.
  intros Hlevels. revert start.
  induction Hlevels as [|t ts Ht Hts IH]; intros start Hstart.
  - simpl. destruct Hstart as [-> | ->].
    + rewrite bool_decide_eq_false_2; [done|].
      intros [H|H]; [discriminate H|by apply Exists_nil in H].
    + by rewrite bool_decide_eq_true_2; [|left].
  - simpl.
    assert (priority t = "HIGH" ∨ priority t = "MEDIUM" ∨ priority t = "LOW")
      as Hp.
    { repeat (apply elem_of_cons in Ht as [Ht|Ht]; [tauto|]).
      by apply elem_of_nil in Ht. }
    destruct Hstart as [-> | ->], Hp as [Hp|[Hp|Hp]]; rewrite Hp;
      match goal with
      | |- context [(?a <? ?b)%nat] =>
          let v := eval vm_compute in (a <? b)%nat in
          change (a <? b)%nat with v
      end; cbv iota; rewrite IH by tauto;
      (erewrite bool_decide_ext; [reflexivity|]);
      rewrite Exists_cons, Hp; intuition discriminate.
Qed.

(** X13. On members whose priorities are HIGH, MEDIUM or LOW,
    [getHighestPriority] answers MEDIUM when some member is MEDIUM and LOW
    otherwise; members of priority HIGH do not count, and the empty cluster
    gives LOW. *)
Theorem getHighestPriority_three_levels (tasks : list Task) :
  Forall (λ t, priority t ∈ ["HIGH"; "MEDIUM"; "LOW"]) tasks →
  getHighestPriority tasks
  = if bool_decide (Exists (λ t, priority t = "MEDIUM") tasks)
    then "MEDIUM" else "LOW".
Proof.
  intros Hlevels. unfold getHighestPriority.
  rewrite getHighestPriority_fold by tauto.
  erewrite bool_decide_ext; [reflexivity|]. intuition discriminate.
Qed.

Lemma getHighestPriority_three_levels_witness :
  getHighestPriority Scenario.fourTasks = "MEDIUM".
Proof.
  rewrite (getHighestPriority_three_levels Scenario.fourTasks).
  - reflexivity.
  - repeat constructor; set_solver.
Defined.

(** X14. The key of the similarity cache does not depend on the order of
    the two identifiers. *)
Theorem getSimilarityCacheKey_sym (taskId1 taskId2 : string) :
  getSimilarityCacheKey taskId1 taskId2 = getSimilarityCacheKey taskId2 taskId1.
Proof.
  unfold getSimilarityCacheKey.
  destruct (String.leb taskId1 taskId2) eqn:H12,
           (String.leb taskId2 taskId1) eqn:H21; try done.
  - by rewrite (String.leb_antisym _ _ H12 H21).
  - destruct (String.leb_total taskId1 taskId2); congruence.
Qed.

End AggregateExtras.

(** ** The quick filter and the comparator *)

Module EstimateExtras.
Import AIService.

Lemma filter_is_intersection (words1 words2 : gset string) :
  filter (λ x, x ∈ words2) words1 = words1 ∩ words2.
Proof.
  apply set_eq. intros x. rewrite elem_of_filter, elem_of_intersection. tauto.
Qed.

(** X15. The quick filter is symmetric in its two arguments. *)
Theorem quickStringComparison_sym (str1 str2 : string) :
  quickStringComparison str1 str2 = quickStringComparison str2 str1.
Proof.
  unfold quickStringComparison. rewrite !filter_is_intersection.
  by rewrite (comm_L (∩) (wordSet (normalize str1))),
             (comm_L (∪) (wordSet (normalize str1))).
Qed.

Lemma div_range (a b : nat) :
  (a ≤ b)%nat → b ≠ 0%nat →
  ∃ q, JS.div a b = Fin q ∧ (0 <= q)%Q ∧ (q <= 1)%Q.
Proof.
  intros Hle Hb. destruct b as [|b]; [done|].
  exists (Z.of_nat a # Pos.of_nat (S b)). split; [done|].
  unfold Qle. cbn [Qnum Qden].
  rewrite <- Pos.of_nat_succ, Zpos_P_of_succ_nat. lia.
Qed.

Lemma estimate_sizes (str1 str2 : string) :
  (size (wordSet (normalize str1) ∩ wordSet (normalize str2))
   ≤ size (wordSet (normalize str1) ∪ wordSet (normalize str2)))%nat
  ∧ size (wordSet (normalize str1) ∪ wordSet (normalize str2)) ≠ 0%nat.
Proof.
  split; [|apply QuickFilterProps.union_size_pos].
  apply subseteq_size. intros x Hx. apply elem_of_intersection in Hx as [Hx _].
  apply elem_of_union. by left.
Qed.

(** X16. The quick filter answers a fraction between 0 and 1, the bounds
    included. *)
Theorem quickStringComparison_range (str1 str2 : string) :
  ∃ q, quickStringComparison str1 str2 = Fin q ∧ (0 <= q)%Q ∧ (q <= 1)%Q.
Proof.
  unfold quickStringComparison. rewrite filter_is_intersection.
  destruct (estimate_sizes str1 str2) as [Hle Hpos].
  by apply div_range.
Qed.

Lemma quick_of_equal_sets (str1 str2 : string) :
  wordSet (normalize str1) = wordSet (normalize str2) →
  ∃ n, quickStringComparison str1 str2
       = Fin (Z.of_nat (S n) # Pos.of_nat (S n)).
Proof.
  intros Heq. unfold quickStringComparison.
  rewrite filter_is_intersection, Heq.
  rewrite (idemp_L (∩)), (idemp_L (∪)).
  pose proof (QuickFilterProps.union_size_pos (normalize str2) (normalize str2))
    as Hpos.
  rewrite (idemp_L (∪)) in Hpos.
  destruct (size (wordSet (normalize str2))) as [|n]; [done|].
  by exists n.
Qed.

(** X17. Two descriptions with the same set of words, as the quick
    filter takes them (in lower case, without the characters that are
    neither word characters nor white space, split at the runs of white
    space, nothing being trimmed), are declared identical: the comparison
    returns 1 and the classifier is not invoked.  Equal descriptions are
    such a pair, and so are "Send report!" and "REPORT, send  report". *)
Theorem compareTaskSimilarity_same_words
    (model : string → ModelReply) (parseFloat : string → JSNum)
    (d1 d2 : string) :
  wordSet (normalize d1) = wordSet (normalize d2) →
  compareTaskSimilarity model parseFloat (Some d1) (Some d2)
  = ([], Returned (Fin 1)).
Proof.
  intros Hwords.
  destruct (quick_of_equal_sets d1 d2 Hwords) as [n Hq].
  assert (JS.gt (quickStringComparison d1 d2) (Fin (9 # 10)) = true) as Hgt.
  { rewrite Hq. unfold JS.gt, JS.lt. apply negb_true_iff.
    destruct (Qle_bool _ _) eqn:Hle; [|done].
    apply Qle_bool_iff in Hle. unfold Qle in Hle. cbn [Qnum Qden] in Hle.
    rewrite <- Pos.of_nat_succ, Zpos_P_of_succ_nat in Hle. lia. }
  unfold compareTaskSimilarity, quickStringComparison_js.
  by rewrite (ComparatorProps.gt_high_not_lt_low _ Hgt), Hgt.
Qed.

Lemma compareTaskSimilarity_same_words_witness :
  compareTaskSimilarity (λ _, ModelFails (OtherError "down")) (λ _, NaN)
    (Some "Send report!") (Some "REPORT, send  report")
  = ([], Returned (Fin 1)).
Proof.
  apply compareTaskSimilarity_same_words. vm_compute. reflexivity.
Defined.

Lemma valid_score_range (score : JSNum) :
  invalidScore score = false →
  ∃ q, score = Fin q ∧ (0 <= q)%Q ∧ (q <= 1)%Q.
Proof.
  unfold invalidScore. destruct score as [| | |q]; try done.
  simpl. intros H. apply orb_false_iff in H as [H0 H1].
  apply negb_false_iff, Qle_bool_iff in H0, H1. eauto.
Qed.

(** X18. Whatever the classifier answers and whatever the descriptions
    are (strings or undefined), the comparison returns a number between 0
    and 1, never NaN, and it invokes the classifier at most once. *)
Theorem compareTaskSimilarity_range
    (model : string → ModelReply) (parseFloat : string → JSNum)
    (d1 d2 : option string) :
  ∃ q,
    (compareTaskSimilarity model parseFloat d1 d2).2 = Returned (Fin q)
    ∧ (0 <= q)%Q ∧ (q <= 1)%Q
    ∧ (length (compareTaskSimilarity model parseFloat d1 d2).1 ≤ 1)%nat.
Proof.
  assert (∀ a b, ∃ q, quickStringComparison a b = Fin q
                       ∧ (0 <= q)%Q ∧ (q <= 1)%Q) as quick_range.
  { intros a b. unfold quickStringComparison. rewrite filter_is_intersection.
    destruct (estimate_sizes a b) as [Hle Hpos]. by apply div_range. }
  unfold compareTaskSimilarity, compareFallback.
  destruct (quickStringComparison_js d1 d2) as [quick|e] eqn:Hquick.
  - destruct d1 as [s1|], d2 as [s2|]; try discriminate Hquick.
    injection Hquick as <-. rewrite !ComparatorProps.or_str_some.
    destruct (quick_range s1 s2) as (q & Hq & H0 & H1).
    destruct (JS.lt _ _).
    { exists 0%Q. simpl. repeat split; [done|done|lia]. }
    destruct (JS.gt _ _).
    { exists 1%Q. simpl. repeat split; [done|done|lia]. }
    destruct (model _) as [e|content].
    + exists q. simpl. rewrite Hq. repeat split; [done|done|lia].
    + destruct (invalidScore _) eqn:Hvalid.
      * exists q. simpl. rewrite Hq. repeat split; [done|done|lia].
      * destruct (valid_score_range _ Hvalid) as (q' & Hq' & H0' & H1').
        exists q'. simpl. rewrite Hq'. repeat split; [done|done|lia].
  - destruct (quick_range (or_str d1 "") (or_str d2 ""))
      as (q & Hq & H0 & H1).
    exists q. simpl. rewrite Hq. repeat split; [done|done|lia].
Qed.

End EstimateExtras.

(** ** Grouping *)

Module GroupingExtras.
Import TaskService GroupingSpec.

Local Set Warnings "-clear-no-such-hyp".

Lemma NoDup_map_inj {A B : Type} (f : A → B) (l : list A) (x y : A) :
  NoDup (map f l) → x ∈ l → y ∈ l → f x = f y → x = y.
Proof.
  induction l as [|a l IH]; intros Hnd Hx Hy Hf; [by apply elem_of_nil in Hx|].
  simpl in Hnd. apply NoDup_cons in Hnd as [Ha Hnd].
  apply elem_of_cons in Hx as [->|Hx], Hy as [->|Hy]; try done.
  - destruct Ha. rewrite Hf. apply list_elem_of_fmap. by exists y.
  - destruct Ha. rewrite <- Hf. apply list_elem_of_fmap. by exists x.
  - by apply IH.
Qed.

Section Groups.

Variable allTasks : list Task.
Variable similarities : gmap string JSNum.

Lemma buildGroups_skip (task : Task) (rest : list Task)
    (groups : list (list Task)) (processed : gset string) :
  id task ∈ processed →
  buildGroups allTasks similarities (task :: rest) groups processed
  = buildGroups allTasks similarities rest groups processed.
Proof. intros Hin. simpl. by rewrite bool_decide_eq_true_2. Qed.

Lemma buildGroups_anchor (task : Task) (rest : list Task)
    (groups : list (list Task)) (processed : gset string) :
  id task ∉ processed →
  buildGroups allTasks similarities (task :: rest) groups processed
  = buildGroups allTasks similarities rest
      (groups ++ [task :: similarTasksOf allTasks similarities processed task])
      (list_to_set (map id (similarTasksOf allTasks similarities processed task))
       ∪ {[id task]} ∪ processed).
Proof.
  intros Hout. simpl. rewrite bool_decide_eq_false_2 by done.
  fold (similarTasksOf allTasks similarities processed task).
  destruct (similarTasksOf allTasks similarities processed task) as [|s ss];
    [|done].
  simpl. by rewrite (left_id_L ∅ (∪)).
Qed.

Lemma similar_member (processed : gset string) (task other : Task) :
  other ∈ similarTasksOf allTasks similarities processed task →
  other ∈ allTasks ∧ id other ≠ id task ∧ (id other ∉ processed)
  ∧ isSimilar similarities (getSimilarityCacheKey (id task) (id other)) = true.
Proof.
  unfold similarTasksOf. intros Hin.
  apply list_elem_of_filter in Hin as [Hp Hin].
  apply andb_true_iff in Hp as [Hp Hsim].
  apply negb_true_iff, orb_false_iff in Hp as [Hid Hproc].
  apply bool_decide_eq_false in Hid, Hproc. done.
Qed.

Lemma groupsOk_anchor (task : Task) (groups : list (list Task))
    (processed : gset string) :
  groupsOk allTasks similarities groups processed →
  task ∈ allTasks → id task ∉ processed →
  groupsOk allTasks similarities
    (groups ++ [task :: similarTasksOf allTasks similarities processed task])
    (list_to_set (map id (similarTasksOf allTasks similarities processed task))
     ∪ {[id task]} ∪ processed).
Proof.
  intros (Hshape & Hmem & Hproc & Hnodup) Htask Hout.
  set (similar := similarTasksOf allTasks similarities processed task).
  assert (concat (groups ++ [task :: similar])
          = (concat groups ++ task :: similar)%list) as Hcat.
  { by rewrite concat_app; simpl; rewrite app_nil_r. }
  split; [|split; [|split]].
  - intros g Hg. apply elem_of_app in Hg as [Hg|Hg]; [by apply Hshape|].
    apply list_elem_of_singleton in Hg as ->. exists task, similar.
    split; [done|]. intros m Hm. by apply similar_member in Hm as (_ & _ & _ & ?).
  - intros t. rewrite Hcat. intros Ht.
    apply elem_of_app in Ht as [Ht|Ht]; [by apply Hmem|].
    apply elem_of_cons in Ht as [->|Ht]; [done|].
    by apply similar_member in Ht as (? & _).
  - intros i. rewrite Hcat, map_app, elem_of_app. simpl.
    rewrite elem_of_cons, <- Hproc, !elem_of_union, elem_of_singleton,
            elem_of_list_to_set.
    tauto.
  - intros Hnd. rewrite Hcat. apply NoDup_app. split; [by apply Hnodup|].
    split.
    + intros t Ht Ht'.
      assert (id t ∈ processed) as Hin.
      { apply Hproc, list_elem_of_fmap. by exists t. }
      apply elem_of_cons in Ht' as [->|Ht']; [done|].
      by apply similar_member in Ht' as (_ & _ & ? & _).
    + apply NoDup_cons. split.
      * intros Hin. by apply similar_member in Hin as (_ & ? & _).
      * unfold similar, similarTasksOf. by apply NoDup_filter.
Qed.

Lemma buildGroups_inv (remaining : list Task) :
  ∀ (groups : list (list Task)) (processed : gset string),
    groupsOk allTasks similarities groups processed →
    (∀ t, t ∈ remaining → t ∈ allTasks) →
    ∃ processed',
      groupsOk allTasks similarities
        (buildGroups allTasks similarities remaining groups processed)
        processed'
      ∧ (∀ i, i ∈ processed → i ∈ processed')
      ∧ ∀ t, t ∈ remaining → id t ∈ processed'.
Proof.
  induction remaining as [|task rest IH]; intros groups processed Hok Hsub.
  - exists processed. split; [exact Hok|]. split; [done|].
    intros t Ht. by apply elem_of_nil in Ht.
  - assert (∀ t, t ∈ rest → t ∈ allTasks) as Hsub'.
    { intros t Ht. apply Hsub, elem_of_cons. by right. }
    destruct (decide (id task ∈ processed)) as [Hin|Hout].
    + rewrite buildGroups_skip by done.
      destruct (IH groups processed Hok Hsub') as (processed' & Hok' & Hmono & Hcov).
      exists processed'. split; [exact Hok'|]. split; [exact Hmono|].
      intros t Ht. apply elem_of_cons in Ht as [->|Ht]; [by apply Hmono|by apply Hcov].
    + rewrite buildGroups_anchor by done.
      destruct (IH _ _ (groupsOk_anchor task groups processed Hok
                          (Hsub task (list_elem_of_here _ _)) Hout) Hsub')
        as (processed' & Hok' & Hmono & Hcov).
      exists processed'. split; [exact Hok'|]. split.
      * intros i Hi. apply Hmono. apply elem_of_union. by right.
      * intros t Ht. apply elem_of_cons in Ht as [->|Ht]; [|by apply Hcov].
        apply Hmono. apply elem_of_union. left. apply elem_of_union. right.
        by apply elem_of_singleton.
Qed.

(** The groups that the second loop makes of the whole batch. *)
Lemma buildGroups_partition :
  let groups := buildGroups allTasks similarities allTasks [] ∅ in
  (∀ g, g ∈ groups →
        ∃ anchor members,
          g = anchor :: members
          ∧ ∀ m, m ∈ members →
                 isSimilar similarities
                   (getSimilarityCacheKey (id anchor) (id m)) = true)
  ∧ (∀ t, t ∈ concat groups → t ∈ allTasks)
  ∧ (∀ t, t ∈ allTasks → id t ∈ map id (concat groups))
  ∧ (NoDup (map id allTasks) → concat groups ≡ₚ allTasks).
Proof.
  intros groups.
  destruct (buildGroups_inv allTasks [] ∅) as (processed & Hok & _ & Hcov).
  { split; [|split; [|split]].
    - intros g Hg. by apply elem_of_nil in Hg.
    - intros t Ht. by apply elem_of_nil in Ht.
    - intros i. simpl. rewrite elem_of_nil. set_solver.
    - intros _. apply NoDup_nil_2. }
  { done. }
  fold groups in Hok. destruct Hok as (Hshape & Hmem & Hproc & Hnodup).
  split; [exact Hshape|]. split; [exact Hmem|]. split.
  - intros t Ht. by apply Hproc, Hcov.
  - intros Hids.
    assert (NoDup allTasks) as Hnd by (by apply NoDup_fmap_1 in Hids).
    apply NoDup_Permutation; [by apply Hnodup|done|].
    intros t. split; [apply Hmem|]. intros Ht.
    assert (id t ∈ map id (concat groups)) as Hid by (by apply Hproc, Hcov).
    apply list_elem_of_fmap in Hid as (t' & Heq & Ht').
    assert (t' = t) as <-; [|done].
    apply (NoDup_map_inj id allTasks); auto.
Qed.

End Groups.

(** *** The first loop *)

Lemma batchesFuel_concat {A} (n fuel : nat) (l : list A) :
  n ≠ 0%nat → (length l ≤ fuel)%nat → concat (batchesFuel fuel n l) = l.
Proof.
  intros Hn. revert l. induction fuel as [|fuel IH]; intros l Hlen.
  - destruct l; [done|simpl in Hlen; lia].
  - destruct l as [|x l]; [done|].
    cbn [batchesFuel concat]. rewrite IH, take_drop; [done|].
    rewrite length_drop. simpl in *. lia.
Qed.

Lemma batches_concat {A} (n : nat) (l : list A) :
  n ≠ 0%nat → concat (batches n l) = l.
Proof. intros Hn. by apply batchesFuel_concat. Qed.

Lemma storeResults_lookup_other (results : list (string * JSNum))
    (m : gmap string JSNum) (k : string) :
  k ∉ map fst results → storeResults results m !! k = m !! k.
Proof.
  unfold storeResults. revert m.
  induction results as [|r rs IH]; intros m Hk; [done|].
  simpl. rewrite IH.
  - apply lookup_insert_ne. intros Heq. apply Hk. simpl.
    apply elem_of_cons. by left.
  - intros Hin. apply Hk. simpl. apply elem_of_cons. by right.
Qed.

Lemma storeResults_mono (results : list (string * JSNum))
    (m1 m2 : gmap string JSNum) :
  m1 ⊆ m2 → storeResults results m1 ⊆ storeResults results m2.
Proof.
  unfold storeResults. revert m1 m2.
  induction results as [|r rs IH]; intros m1 m2 Hsub; [done|].
  simpl. apply IH. by apply insert_mono.
Qed.

Lemma storeResults_dom (results : list (string * JSNum))
    (m : gmap string JSNum) :
  dom (storeResults results m) = list_to_set (map fst results) ∪ dom m.
Proof.
  unfold storeResults. revert m.
  induction results as [|r rs IH]; intros m.
  - simpl. by rewrite (left_id_L ∅ (∪)).
  - simpl. rewrite IH, dom_insert_L. set_solver.
Qed.

Lemma storeResults_keeps (results : list (string * JSNum))
    (m0 m : gmap string JSNum) :
  m0 ⊆ m → (∀ k, k ∈ map fst results → m0 !! k = None) →
  m0 ⊆ storeResults results m.
Proof.
  intros Hsub Hfresh. apply map_subseteq_spec. intros k v Hk.
  rewrite storeResults_lookup_other.
  - by apply (lookup_weaken m0).
  - intros Hin. rewrite (Hfresh k Hin) in Hk. discriminate Hk.
Qed.

Lemma collect_spec (processed : gset string) (cache : gmap string JSNum)
    (task : Task) (others : list Task) :
  ∀ sims sims' queued,
    collectComparisons processed cache task others sims = (sims', queued) →
    (∀ c, c ∈ queued → cache !! c_cacheKey c = None)
    ∧ (sims ⊆ cache → sims' ⊆ cache)
    ∧ (processed = ∅ →
       dom sims' ∪ list_to_set (map c_cacheKey queued)
       = dom sims
         ∪ list_to_set
             (map (λ o, getSimilarityCacheKey (id task) (id o)) others))
    ∧ ((∀ o, o ∈ others →
             is_Some (cache !! getSimilarityCacheKey (id task) (id o))) →
       queued = []).
Proof.
  induction others as [|other rest IH]; intros sims sims' queued Hrun.
  - injection Hrun as <- <-.
    split; [intros c Hc; by apply elem_of_nil in Hc|].
    split; [done|]. split; [|done].
    intros _. simpl. by rewrite !(right_id_L ∅ (∪)).
  - simpl in Hrun. case_bool_decide as Hproc.
    + destruct (IH _ _ _ Hrun) as (Hfresh & Hsub & Hdom & Hall).
      split; [exact Hfresh|]. split; [exact Hsub|]. split.
      * intros ->. by apply elem_of_empty in Hproc.
      * intros Hc. apply Hall. intros o Ho. apply Hc, elem_of_cons. by right.
    + destruct (cache !! getSimilarityCacheKey (id task) (id other))
        as [v|] eqn:Hcache.
      * destruct (IH _ _ _ Hrun) as (Hfresh & Hsub & Hdom & Hall).
        split; [exact Hfresh|]. split; [|split].
        -- intros Hs. apply Hsub. by apply insert_subseteq_l.
        -- intros Hp. rewrite (Hdom Hp), dom_insert_L. simpl. set_solver.
        -- intros Hc. apply Hall. intros o Ho. apply Hc, elem_of_cons. by right.
      * destruct (collectComparisons processed cache task rest sims)
          as [sims0 queued0] eqn:Hrest.
        injection Hrun as <- <-.
        destruct (IH _ _ _ Hrest) as (Hfresh & Hsub & Hdom & Hall).
        split; [|split; [exact Hsub|split]].
        -- intros c Hc. apply elem_of_cons in Hc as [->|Hc]; [done|by apply Hfresh].
        -- intros Hp. simpl. specialize (Hdom Hp). set_solver.
        -- intros Hc. destruct (Hc other) as [v Hv]; [apply elem_of_cons; by left|].
           congruence.
Qed.

Section FirstLoop.

Variable compare : string → string → Completion JSNum.

(** States that differ in the similarity cache only, the second holding
    what [cache0] holds. *)
Local Abbreviation same_but_cache cache0 st st' :=
  (tasksMap st' = tasksMap st ∧ tasksByEmail st' = tasksByEmail st
   ∧ emitted st' = emitted st ∧ cache0 ⊆ similarityCache st').

Lemma compareBatch_keys (batch : list Comparison)
    (results : list (string * JSNum)) :
  compareBatch compare batch = Returned results →
  map fst results = map c_cacheKey batch.
Proof.
  revert results. induction batch as [|c rest IH]; intros results Hrun.
  - by injection Hrun as <-.
  - simpl in Hrun. destruct (compare _ _) as [v|e]; [|done].
    destruct (compareBatch compare rest) as [rs|e]; [|done].
    injection Hrun as <-. simpl. by rewrite (IH rs).
Qed.

Lemma processBatch_spec (sims : gmap string JSNum) (batch : list Comparison)
    (st st' : State) (outcome : Completion (gmap string JSNum)) :
  processBatch compare sims batch st = (st', outcome) →
  match outcome with
  | Thrown _ => st' = st
  | Returned sims' =>
      ∃ results,
        map fst results = map c_cacheKey batch
        ∧ sims' = storeResults results sims
        ∧ st' = set_similarityCache
                  (storeResults results (similarityCache st)) st
  end.
Proof.
  unfold processBatch.
  destruct (compareBatch compare batch) as [results|e] eqn:Hb.
  - unfold bind, modify, ret. intros [= <- <-].
    exists results. by rewrite (compareBatch_keys _ _ Hb).
  - unfold throw. by intros [= <- <-].
Qed.

Lemma processBatches_spec (cache0 : gmap string JSNum)
    (bs : list (list Comparison)) :
  ∀ sims st st' outcome,
    processBatches compare sims bs st = (st', outcome) →
    cache0 ⊆ similarityCache st →
    (∀ c, c ∈ concat bs → cache0 !! c_cacheKey c = None) →
    same_but_cache cache0 st st'
    ∧ match outcome with
      | Thrown _ => True
      | Returned sims' =>
          (sims ⊆ similarityCache st → sims' ⊆ similarityCache st')
          ∧ dom sims' = list_to_set (map c_cacheKey (concat bs)) ∪ dom sims
      end.
Proof.
  induction bs as [|batch rest IH]; intros sims st st' outcome Hrun Hsub Hfresh.
  - injection Hrun as <- <-. split; [done|]. split; [done|].
    simpl. by rewrite (left_id_L ∅ (∪)).
  - simpl in Hrun. unfold bind in Hrun.
    destruct (processBatch compare sims batch st) as [st1 [sims1|e]] eqn:Hb.
    + apply processBatch_spec in Hb as (results & Hkeys & -> & ->).
      assert (cache0 ⊆ storeResults results (similarityCache st)) as Hsub1.
      { apply storeResults_keeps; [done|]. intros k Hk. rewrite Hkeys in Hk.
        apply list_elem_of_fmap in Hk as (c & -> & Hc).
        apply Hfresh. simpl. apply elem_of_app. by left. }
      destruct (IH _ _ _ _ Hrun Hsub1) as ((Hm & He & Hev & Hc) & Hout).
      { intros c Hc. apply Hfresh. simpl. apply elem_of_app. by right. }
      split; [done|]. destruct outcome as [sims'|e]; [|done].
      destruct Hout as [Hs Hdom]. split.
      * intros Hsims. apply Hs. simpl. by apply storeResults_mono.
      * rewrite Hdom, storeResults_dom, Hkeys. simpl. rewrite map_app.
        set_solver.
    + injection Hrun as <- <-. apply processBatch_spec in Hb as ->. done.
Qed.

Lemma precompute_spec (cache0 : gmap string JSNum) (n : nat)
    (processed : gset string) (remaining : list Task) :
  n ≠ 0%nat →
  ∀ sims st st' outcome,
    precompute compare processed n remaining sims st = (st', outcome) →
    cache0 ⊆ similarityCache st →
    same_but_cache cache0 st st'
    ∧ match outcome with
      | Thrown _ => True
      | Returned sims' =>
          (sims ⊆ similarityCache st → sims' ⊆ similarityCache st')
          ∧ (processed = ∅ → dom sims' = dom sims ∪ pairKeys remaining)
      end.
Proof.
  intros Hn.
  induction remaining as [|task others IH]; intros sims st st' outcome Hrun Hsub.
  - injection Hrun as <- <-. split; [done|]. split; [done|].
    intros _. simpl. by rewrite (right_id_L ∅ (∪)).
  - simpl in Hrun. case_bool_decide as Hproc.
    + destruct (IH _ _ _ _ Hrun Hsub) as (Hsame & Hout). split; [done|].
      destruct outcome as [sims'|e]; [|done]. destruct Hout as [Hs Hdom].
      split; [done|]. intros ->. by apply elem_of_empty in Hproc.
    + unfold bind at 1, gets in Hrun.
      destruct (collectComparisons processed (similarityCache st) task others
                  sims) as [sims0 queued] eqn:Hcollect.
      apply collect_spec in Hcollect as (Hfresh & Hsub0 & Hdom0 & _).
      unfold bind in Hrun.
      destruct (processBatches compare sims0 (batches n queued) st)
        as [st1 [sims1|e]] eqn:Hbatches.
      * apply (processBatches_spec cache0) in Hbatches
          as ((Hm & He & Hev & Hc) & Hs1 & Hdom1); [|done|].
        2:{ rewrite batches_concat by done. intros c Hc.
            specialize (Hfresh c Hc).
            destruct (cache0 !! c_cacheKey c) as [v|] eqn:Hv; [|done].
            by rewrite (lookup_weaken _ _ _ _ Hv Hsub) in Hfresh. }
        destruct (IH _ _ _ _ Hrun Hc) as ((Hm' & He' & Hev' & Hc') & Hout).
        split; [split; [congruence|split; [congruence|split; [congruence|done]]]|].
        destruct outcome as [sims'|e]; [|done]. destruct Hout as [Hs Hdom].
        split; [by auto|].
        intros Hp. rewrite (Hdom Hp), Hdom1, batches_concat by done.
        specialize (Hdom0 Hp). simpl. set_solver.
      * injection Hrun as <- <-.
        apply (processBatches_spec cache0) in Hbatches as (Hsame & _);
          [done|done|].
        rewrite batches_concat by done. intros c Hc.
        specialize (Hfresh c Hc).
        destruct (cache0 !! c_cacheKey c) as [v|] eqn:Hv; [|done].
        by rewrite (lookup_weaken _ _ _ _ Hv Hsub) in Hfresh.
Qed.

Lemma compareBatch_total (batch : list Comparison) :
  (∀ a b, ∃ v, compare a b = Returned v) →
  ∃ results, compareBatch compare batch = Returned results.
Proof.
  intros Htotal. induction batch as [|c rest [rs IH]]; [by eexists|].
  simpl. destruct (Htotal (description (c_task c))
                          (description (c_otherTask c))) as [v ->].
  rewrite IH. by eexists.
Qed.

Lemma processBatches_total (bs : list (list Comparison)) :
  (∀ a b, ∃ v, compare a b = Returned v) →
  ∀ sims st, ∃ st' sims',
    processBatches compare sims bs st = (st', Returned sims').
Proof.
  intros Htotal. induction bs as [|batch rest IH]; intros sims st.
  - by do 2 eexists.
  - simpl. unfold bind, processBatch.
    destruct (compareBatch_total batch Htotal) as [results ->].
    unfold bind, modify, ret. apply IH.
Qed.

Lemma precompute_total (n : nat) (processed : gset string)
    (remaining : list Task) :
  (∀ a b, ∃ v, compare a b = Returned v) →
  ∀ sims st, ∃ st' sims',
    precompute compare processed n remaining sims st = (st', Returned sims').
Proof.
  intros Htotal. induction remaining as [|task others IH]; intros sims st.
  - by do 2 eexists.
  - simpl. case_bool_decide; [apply IH|].
    unfold bind at 1, gets.
    destruct (collectComparisons _ _ _ _ _) as [sims0 queued].
    unfold bind.
    destruct (processBatches_total (batches n queued) Htotal sims0 st)
      as (st1 & sims1 & ->).
    apply IH.
Qed.

Lemma precompute_cached (n : nat) (remaining : list Task) :
  ∀ sims st,
    pairKeys remaining ⊆ dom (similarityCache st) →
    ∃ sims', precompute compare ∅ n remaining sims st = (st, Returned sims').
Proof.
  induction remaining as [|task others IH]; intros sims st Hkeys.
  - by eexists.
  - simpl. rewrite bool_decide_eq_false_2 by apply not_elem_of_empty.
    unfold bind at 1, gets.
    destruct (collectComparisons _ _ _ _ _) as [sims0 queued] eqn:Hcollect.
    apply collect_spec in Hcollect as (_ & _ & _ & Hall).
    rewrite Hall.
    + unfold batches. simpl. unfold bind, ret. apply IH.
      intros k Hk. apply Hkeys. simpl. apply elem_of_union. by right.
    + intros o Ho. apply elem_of_dom, Hkeys. simpl. apply elem_of_union. left.
      apply elem_of_list_to_set, list_elem_of_fmap. by exists o.
Qed.

End FirstLoop.

(** *** The routine *)

Lemma groupSimilarTasks_returned
    (compare : string → string → Completion JSNum)
    (results : list ExtractionResult) (st st' : State)
    (groups : list (list Task)) :
  groupSimilarTasks compare results st = (st', Returned groups) →
  ∃ sims,
    precompute compare ∅ 5 (allTasksOf results) ∅ st = (st', Returned sims)
    ∧ groups = buildGroups (allTasksOf results) sims (allTasksOf results) [] ∅.
Proof.
  unfold groupSimilarTasks, groupSimilarTasks_try, bind, ret.
  destruct (precompute compare ∅ 5 (allTasksOf results) ∅ st)
    as [st1 [sims|e]].
  - intros [= <- <-]. by exists sims.
  - unfold groupSimilarTasks_catch.
    rewrite GroupingProps.allTasks_unbound. unfold throw. done.
Qed.

(** X19. With a comparison that does not reject, [groupSimilarTasks]
    returns; no group is empty, every member of a group is a task of the
    batch, and every task of the batch has its identifier in some group.
    When the identifiers of the batch are pairwise distinct, the groups
    hold every task of the batch exactly once. *)
Theorem groupSimilarTasks_partition
    (compare : string → string → Completion JSNum)
    (results : list ExtractionResult) (st : State) :
  (∀ a b, ∃ v, compare a b = Returned v) →
  ∃ st' groups,
    groupSimilarTasks compare results st = (st', Returned groups)
    ∧ (∀ g, g ∈ groups → g ≠ [])
    ∧ (∀ t, t ∈ concat groups → t ∈ allTasksOf results)
    ∧ (∀ t, t ∈ allTasksOf results → id t ∈ map id (concat groups))
    ∧ (NoDup (map id (allTasksOf results)) →
       concat groups ≡ₚ allTasksOf results).
Proof.
  intros Htotal.
  destruct (precompute_total compare 5 ∅ (allTasksOf results) Htotal ∅ st)
    as (st' & sims & Hpre).
  exists st', (buildGroups (allTasksOf results) sims (allTasksOf results) [] ∅).
  split.
  - unfold groupSimilarTasks, groupSimilarTasks_try, bind, ret.
    by rewrite Hpre.
  - destruct (buildGroups_partition (allTasksOf results) sims)
      as (Hshape & Hmem & Hcov & Hperm).
    split; [|done].
    intros g Hg. by destruct (Hshape g Hg) as (anchor & members & -> & _).
Qed.

Lemma groupSimilarTasks_partition_witness :
  ∃ st' groups,
    groupSimilarTasks Scenario.dissimilar [mkResult Scenario.fourTasks]
                      Scenario.emptyState = (st', Returned groups)
    ∧ concat groups ≡ₚ Scenario.fourTasks.
Proof.
  destruct (groupSimilarTasks_partition Scenario.dissimilar
              [mkResult Scenario.fourTasks] Scenario.emptyState)
    as (st' & groups & Hrun & _ & _ & _ & Hperm).
  { intros a b. by eexists. }
  exists st', groups. split; [exact Hrun|]. apply Hperm.
  vm_compute. repeat constructor; set_solver.
Defined.

(** X20. Whatever its outcome, [groupSimilarTasks] writes the similarity
    cache only, and only adds to it: the index by identifier, the index by
    message and the events are as before, and every score that was cached
    before the call is cached, unchanged, after it. *)
Theorem groupSimilarTasks_extends_cache
    (compare : string → string → Completion JSNum)
    (results : list ExtractionResult) (st st' : State)
    (outcome : Completion (list (list Task))) :
  groupSimilarTasks compare results st = (st', outcome) →
  tasksMap st' = tasksMap st
  ∧ tasksByEmail st' = tasksByEmail st
  ∧ emitted st' = emitted st
  ∧ ∀ key v, similarityCache st !! key = Some v →
             similarityCache st' !! key = Some v.
Proof.
  unfold groupSimilarTasks, groupSimilarTasks_try, bind, ret.
  destruct (precompute compare ∅ 5 (allTasksOf results) ∅ st)
    as [st1 [sims|e]] eqn:Hpre; intros Hrun.
  - injection Hrun as <- <-.
    apply (precompute_spec compare (similarityCache st)) in Hpre
      as ((Hm & He & Hev & Hc) & _); [|done|done].
    repeat (split; [done|]). intros key v Hv. by apply (lookup_weaken _ _ _ _ Hv).
  - unfold groupSimilarTasks_catch in Hrun.
    rewrite GroupingProps.allTasks_unbound in Hrun. injection Hrun as <- <-.
    apply (precompute_spec compare (similarityCache st)) in Hpre
      as ((Hm & He & Hev & Hc) & _); [|done|done].
    repeat (split; [done|]). intros key v Hv. by apply (lookup_weaken _ _ _ _ Hv).
Qed.

Lemma groupSimilarTasks_extends_cache_witness :
  let st := set_similarityCache {[ "task_1_task_2" := Fin (9 # 10) ]}
                                Scenario.emptyState in
  similarityCache
    (groupSimilarTasks Scenario.dissimilar [mkResult Scenario.fourTasks] st).1
    !! "task_1_task_2" = Some (Fin (9 # 10)).
Proof.
  intros st.
  destruct (groupSimilarTasks_extends_cache Scenario.dissimilar
              [mkResult Scenario.fourTasks] st
              (groupSimilarTasks Scenario.dissimilar
                 [mkResult Scenario.fourTasks] st).1
              (groupSimilarTasks Scenario.dissimilar
                 [mkResult Scenario.fourTasks] st).2)
    as (_ & _ & _ & Hkeep).
  - by destruct (groupSimilarTasks _ _ _).
  - apply Hkeep. reflexivity.
Defined.

(** X21. After a call of [groupSimilarTasks] that returned, a second call
    on the same batch returns the same groups, leaves the state as it is
    and does not depend on the comparison: every score it needs is in the
    cache. *)
Theorem groupSimilarTasks_rerun
    (compare compare' : string → string → Completion JSNum)
    (results : list ExtractionResult) (st st1 : State)
    (groups : list (list Task)) :
  groupSimilarTasks compare results st = (st1, Returned groups) →
  groupSimilarTasks compare' results st1 = (st1, Returned groups).
Proof.
  intros Hrun. apply groupSimilarTasks_returned in Hrun as (sims1 & Hpre1 & ->).
  pose proof Hpre1 as Hspec1.
  apply (precompute_spec compare (similarityCache st)) in Hspec1
    as (_ & Hsub1 & Hdom1); [|done|done].
  specialize (Hsub1 (map_empty_subseteq _)). specialize (Hdom1 eq_refl).
  rewrite dom_empty_L, (left_id_L ∅ (∪)) in Hdom1.
  destruct (precompute_cached compare' 5 (allTasksOf results) ∅ st1)
    as [sims2 Hpre2].
  { rewrite <- Hdom1. by apply subseteq_dom. }
  pose proof Hpre2 as Hspec2.
  apply (precompute_spec compare' (similarityCache st1)) in Hspec2
    as (_ & Hsub2 & Hdom2); [|done|done].
  specialize (Hsub2 (map_empty_subseteq _)). specialize (Hdom2 eq_refl).
  rewrite dom_empty_L, (left_id_L ∅ (∪)) in Hdom2.
  assert (sims2 = sims1) as ->.
  { apply map_eq. intros k.
    destruct (sims1 !! k) as [v|] eqn:H1.
    - assert (is_Some (sims2 !! k)) as [v' H2].
      { apply elem_of_dom. rewrite Hdom2, <- Hdom1. by apply elem_of_dom. }
      rewrite H2. f_equal.
      pose proof (lookup_weaken _ _ _ _ H1 Hsub1).
      pose proof (lookup_weaken _ _ _ _ H2 Hsub2). congruence.
    - apply not_elem_of_dom. rewrite Hdom2, <- Hdom1. by apply not_elem_of_dom. }
  unfold groupSimilarTasks, groupSimilarTasks_try, bind, ret.
  by rewrite Hpre2.
Qed.

Lemma groupSimilarTasks_rerun_witness :
  let run := groupSimilarTasks Scenario.dissimilar
               [mkResult Scenario.fourTasks] Scenario.emptyState in
  groupSimilarTasks Scenario.unavailable [mkResult Scenario.fourTasks] run.1
  = (run.1, Returned (map (λ task, [task]) Scenario.fourTasks)).
Proof.
  intros run.
  apply (groupSimilarTasks_rerun Scenario.dissimilar Scenario.unavailable
           [mkResult Scenario.fourTasks] Scenario.emptyState).
  vm_compute. reflexivity.
Defined.

(** X22. In the groups that [groupSimilarTasks] returns, every task that
    follows the first task of its group has another identifier than that
    first task and a cached similarity with it above 0.8.  Similarity
    between two later members of a group is not looked at. *)
Theorem groupSimilarTasks_anchor_similarity
    (compare : string → string → Completion JSNum)
    (results : list ExtractionResult) (st st' : State)
    (groups : list (list Task)) :
  groupSimilarTasks compare results st = (st', Returned groups) →
  ∀ g, g ∈ groups →
    ∃ anchor members,
      g = anchor :: members
      ∧ ∀ m, m ∈ members →
          ∃ v, similarityCache st' !! getSimilarityCacheKey (id anchor) (id m)
               = Some v
               ∧ JS.gt v (Fin (8 # 10)) = true.
Proof.
  intros Hrun g Hg.
  apply groupSimilarTasks_returned in Hrun as (sims & Hpre & ->).
  apply (precompute_spec compare (similarityCache st)) in Hpre
    as (_ & Hsub & _); [|done|done].
  specialize (Hsub (map_empty_subseteq _)).
  destruct (buildGroups_partition (allTasksOf results) sims) as (Hshape & _).
  destruct (Hshape g Hg) as (anchor & members & -> & Hsim).
  exists anchor, members. split; [done|]. intros m Hm.
  specialize (Hsim m Hm). unfold isSimilar in Hsim.
  destruct (sims !! _) as [v|] eqn:Hv; [|done].
  exists v. split; [|done]. by apply (lookup_weaken _ _ _ _ Hv).
Qed.

Lemma groupSimilarTasks_anchor_similarity_witness :
  let run := groupSimilarTasks Scenario2.alike [mkResult Scenario.fourTasks]
               Scenario.emptyState in
  run.2 = Returned [Scenario.fourTasks]
  ∧ ∃ v, similarityCache run.1 !! getSimilarityCacheKey "task_1" "task_4"
         = Some v
         ∧ JS.gt v (Fin (8 # 10)) = true.
Proof.
  intros run. split; [vm_compute; reflexivity|].
  destruct (groupSimilarTasks_anchor_similarity Scenario2.alike
              [mkResult Scenario.fourTasks] Scenario.emptyState run.1
              [Scenario.fourTasks])
    with (g := Scenario.fourTasks) as (anchor & members & Heq & Hsim).
  - vm_compute. reflexivity.
  - apply list_elem_of_singleton. reflexivity.
  - injection Heq as <- <-.
    apply (Hsim (pendingTask "task_4" "Call supplier" "LOW" None []
                   (Some "thread-1"))).
    do 2 (apply elem_of_cons; right). apply elem_of_cons. by left.
Defined.

End GroupingExtras.

(** ** The replies of the classifier *)

Module ReplyExtras.
Import AIService AIReplies TaskService.

(** X23. [createParentTask] with the description of the classifier does
    not fail.  The parent it returns is stored in the index under the
    generated identifier; it is a parent and not a subtask, it is pending,
    and it lists the identifiers of the members in their order.  When the
    classifier fails, its description is "Combined task group (n tasks)"
    with the size of the group. *)
Theorem createParentTask_record (DateParse : string → TimeValue)
    (model : string → ModelReply) (generated : string)
    (taskGroup : list Task) (st : State) :
  ∃ st' parent,
    createParentTask DateParse (generateParentTaskDescription model)
                     generated taskGroup st
    = (st', Returned parent)
    ∧ tasksMap st' !! generated = Some parent
    ∧ id parent = generated
    ∧ isParent parent = true ∧ isSubtask parent = false
    ∧ status parent = Some "PENDING"
    ∧ childTaskIds parent = map id taskGroup
    ∧ ((∃ e, model (parentPrompt (tasksText taskGroup)) = ModelFails e) →
       description parent
       = "Combined task group (" ++ decimal (length taskGroup) ++ " tasks)").
Proof.
  unfold createParentTask.
  destruct (IndexExtras.createTask_run generated false
              {| id := EmptyString;
                 description := generateParentTaskDescription model taskGroup;
                 priority := getHighestPriority taskGroup;
                 deadline := getEarliestDeadline DateParse taskGroup;
                 dependencies := [];
                 emailId := None;
                 threadId := None;
                 status := Some "PENDING";
                 parentTaskId := None;
                 isSubtask := false;
                 isParent := true;
                 childTaskIds := map id taskGroup |} st)
    as (st' & Hrun & Hmap & _).
  eexists st', _. split; [exact Hrun|]. simpl in *.
  split; [by rewrite Hmap, lookup_insert_eq|].
  do 5 (split; [done|]).
  intros [e He]. unfold generateParentTaskDescription. by rewrite He.
Qed.

Lemma createParentTask_record_witness :
  ∃ st' parent,
    createParentTask parseDateOnly
      (generateParentTaskDescription (λ _, ModelFails (OtherError "down")))
      "task_parent" Scenario.fourTasks Scenario.emptyState
    = (st', Returned parent)
    ∧ description parent = "Combined task group (4 tasks)".
Proof.
  destruct (createParentTask_record parseDateOnly
              (λ _, ModelFails (OtherError "down")) "task_parent"
              Scenario.fourTasks Scenario.emptyState)
    as (st' & parent & Hrun & _ & _ & _ & _ & _ & _ & Hdesc).
  exists st', parent. split; [exact Hrun|].
  rewrite Hdesc; [reflexivity|]. by eexists.
Defined.

(** *** [parseAIResponse] *)

Lemma parseLine_action (st : ParseState) (line : string) :
  startsWith "Action:" line = false →
  p_action (parseLine st line) = p_action st.
Proof.
  intros H. unfold parseLine. rewrite H.
  by repeat (destruct (startsWith _ _) || destruct (p_inDraft _)).
Qed.

Lemma parseLine_reason (st : ParseState) (line : string) :
  startsWith "Reason:" line = false →
  p_reason (parseLine st line) = p_reason st.
Proof.
  intros H. unfold parseLine. rewrite H.
  by repeat (destruct (startsWith _ _) || destruct (p_inDraft _)).
Qed.

Lemma fold_parse_kept (field : ParseState → string) (p : string)
    (lines : list string) (st : ParseState) :
  (∀ st' line, startsWith p line = false →
               field (parseLine st' line) = field st') →
  (∀ line, line ∈ lines → startsWith p line = false) →
  field (fold_left parseLine lines st) = field st.
Proof.
  intros Hstep. revert st.
  induction lines as [|line rest IH]; intros st Hnone; [done|].
  simpl. rewrite IH.
  - apply Hstep, Hnone, elem_of_cons. by left.
  - intros l Hl. apply Hnone, elem_of_cons. by right.
Qed.

(** X24. A response in which no line starts with "Action:", or in which
    no line starts with "Reason:", is answered with the default reply: to
    respond, with the stock draft. *)
Theorem parseAIResponse_default (response : string) :
  (∀ line, line ∈ splitOn newline response → startsWith "Action:" line = false)
  ∨ (∀ line, line ∈ splitOn newline response →
             startsWith "Reason:" line = false) →
  parseAIResponse response = defaultResponse.
Proof.
  intros Hmissing. unfold parseAIResponse.
  set (lines := filter _ (splitOn newline response)).
  assert (∀ line, line ∈ lines → line ∈ splitOn newline response) as Hsub.
  { intros line Hl. by apply list_elem_of_filter in Hl as [_ ?]. }
  destruct Hmissing as [Hno|Hno].
  - rewrite (fold_parse_kept p_action "Action:");
      [done|apply parseLine_action|auto].
  - rewrite (fold_parse_kept p_reason "Reason:");
      [|apply parseLine_reason|auto].
    simpl. by rewrite orb_true_r.
Qed.

Lemma parseAIResponse_default_witness :
  parseAIResponse ("Reason: newsletter" ++ nl ++ "Please archive it.")
  = defaultResponse.
Proof.
  apply parseAIResponse_default. left. intros line Hline.
  vm_compute in Hline.
  repeat (apply elem_of_cons in Hline as [->|Hline]; [reflexivity|]).
  by apply elem_of_nil in Hline.
Defined.

Lemma trimStart_cases (s : string) :
  trimStart s = "" ∨ ∃ c r, trimStart s = String c r ∧ isSpace c = false.
Proof.
  induction s as [|c r IH]; [by left|]. simpl.
  destruct (isSpace c) eqn:Hc; [exact IH|]. right. by exists c, r.
Qed.

Lemma trimEnd_keeps_head (c : ascii) (r : string) :
  isSpace c = false → ∃ r', trimEnd (String c r) = String c r'.
Proof.
  intros Hc. simpl. destruct (trimEnd r); rewrite ?Hc; by eexists.
Qed.

Lemma trim_head (s : string) :
  trim s = "" ∨ ∃ c r, trim s = String c r ∧ isSpace c = false.
Proof.
  unfold trim. destruct (trimStart_cases s) as [->|(c & r & -> & Hc)];
    [by left|].
  right. destruct (trimEnd_keeps_head c r Hc) as [r' ->]. by exists c, r'.
Qed.

Lemma trim_blank_iff (s : string) : trim s = "" ↔ trimStart s = "".
Proof.
  unfold trim. split.
  - destruct (trimStart_cases s) as [->|(c & r & -> & Hc)]; [done|].
    by destruct (trimEnd_keeps_head c r Hc) as [r' ->].
  - by intros ->.
Qed.

Lemma trimStart_app_ink (a b : string) :
  trimStart b ≠ "" → trimStart (a ++ b) ≠ "".
Proof.
  intros Hb. induction a as [|c a IH]; [done|].
  simpl. by destruct (isSpace c).
Qed.

Lemma trim_trim_ink (s : string) : trim s ≠ "" → trim (trim s) ≠ "".
Proof.
  intros Hs. destruct (trim_head s) as [H|(c & r & Heq & Hc)]; [done|].
  rewrite Heq. rewrite trim_blank_iff. simpl. by rewrite Hc.
Qed.

Lemma upperChar_idemp (c : ascii) : upperChar (upperChar c) = upperChar c.
Proof. destruct c as [[] [] [] [] [] [] [] []]; reflexivity. Qed.

Lemma toUpperCase_idemp (s : string) :
  toUpperCase (toUpperCase s) = toUpperCase s.
Proof.
  induction s as [|c r IH]; [done|]. simpl. by rewrite upperChar_idemp, IH.
Qed.

Lemma fold_parse_draft (lines : list string) (st : ParseState) :
  (∀ line, line ∈ lines → trim line ≠ "") →
  p_draft st = "" ∨ trim (p_draft st) ≠ "" →
  p_draft (fold_left parseLine lines st) = ""
  ∨ trim (p_draft (fold_left parseLine lines st)) ≠ "".
Proof.
  revert st. induction lines as [|line rest IH]; intros st Hink Hst; [done|].
  simpl. apply IH.
  { intros l Hl. apply Hink, elem_of_cons. by right. }
  assert (trim line ≠ "") as Hline by (apply Hink, elem_of_cons; by left).
  unfold parseLine.
  destruct (startsWith "Action:" line); [done|].
  destruct (startsWith "Reason:" line); [done|].
  destruct (startsWith "Draft Response:" line).
  - cbn [p_draft].
    destruct (decide (trim (substringFrom 15 line) = "")) as [Heq|Hd];
      [by left|].
    right. by apply trim_trim_ink.
  - destruct (p_inDraft st); [|done]. cbn [p_draft]. right.
    rewrite trim_blank_iff.
    apply trimStart_app_ink, trimStart_app_ink. by rewrite <- trim_blank_iff.
Qed.

Lemma defaultResponse_well_formed :
  action defaultResponse ≠ ""
  ∧ toUpperCase (action defaultResponse) = action defaultResponse
  ∧ reason defaultResponse ≠ ""
  ∧ ∀ draft, draftResponse defaultResponse = Some draft →
             action defaultResponse = "RESPOND" ∧ draft ≠ "".
Proof.
  split; [discriminate|]. split; [reflexivity|]. split; [discriminate|].
  intros draft [= <-]. split; [reflexivity|discriminate].
Qed.

(** X25. In every reply of [parseAIResponse] the action is not empty and
    is in upper case and the reason is not empty; and if the reply carries
    a draft, then its action is RESPOND and the draft is not empty.  The
    converse is not stated and does not hold: the action is compared with
    "RESPOND" before it is put in upper case, see
    [parseAIResponse_respond_without_draft]. *)
Theorem parseAIResponse_well_formed (response : string) :
  action (parseAIResponse response) ≠ ""
  ∧ toUpperCase (action (parseAIResponse response))
    = action (parseAIResponse response)
  ∧ reason (parseAIResponse response) ≠ ""
  ∧ ∀ draft, draftResponse (parseAIResponse response) = Some draft →
             action (parseAIResponse response) = "RESPOND" ∧ draft ≠ "".
Proof.
  unfold parseAIResponse.
  set (lines := filter _ (splitOn newline response)).
  assert (∀ line, line ∈ lines → trim line ≠ "") as Hink.
  { intros line Hl. by apply list_elem_of_filter in Hl as [? _]. }
  pose proof (fold_parse_draft lines (mkParse "" "" "" false) Hink
                (or_introl eq_refl)) as Hdraft.
  destruct (fold_left parseLine lines (mkParse "" "" "" false))
    as [a r d i].
  cbn [p_action p_reason p_draft] in *.
  destruct a as [|ca a']; [apply defaultResponse_well_formed|].
  destruct r as [|cr r']; [apply defaultResponse_well_formed|].
  cbn [isEmpty orb].
  destruct (String.eqb_spec (String ca a') "RESPOND") as [Heq|Hne].
  - destruct d as [|cd d']; [apply defaultResponse_well_formed|].
    cbn [isEmpty andb action reason draftResponse].
    split; [done|]. split; [apply toUpperCase_idemp|]. split; [done|].
    intros draft [= <-]. split; [by rewrite Heq|].
    by destruct Hdraft.
  - cbn [andb action reason draftResponse].
    split; [done|]. split; [apply toUpperCase_idemp|]. split; [done|].
    intros draft H. discriminate H.
Qed.

Lemma parseAIResponse_well_formed_witness :
  ∃ draft,
    draftResponse
      (parseAIResponse ("Action: RESPOND" ++ nl ++ "Reason: a question"
                        ++ nl ++ "Draft Response: Dear Ana," ++ nl
                        ++ "  see you on Monday.  "))
    = Some draft
    ∧ draft ≠ "".
Proof.
  eexists. split; [vm_compute; reflexivity|].
  apply (parseAIResponse_well_formed
           ("Action: RESPOND" ++ nl ++ "Reason: a question"
            ++ nl ++ "Draft Response: Dear Ana," ++ nl
            ++ "  see you on Monday.  ")).
  vm_compute. reflexivity.
Defined.

(** An answer "Action: respond" gives the action RESPOND without a
    draft. *)
Lemma parseAIResponse_respond_without_draft :
  parseAIResponse ("Action: respond" ++ nl ++ "Reason: a question")
  = {| action := "RESPOND"; reason := "a question"; draftResponse := None |}.
Proof. vm_compute. reflexivity. Qed.

(** *** [quickAnalyzeEmail] *)

(** X26. [quickAnalyzeEmail] asks for the archive only on a complete
    answer: the classifier answered, the second piece of the first line
    split at its colons (the text between the first colon and the second,
    or the end of the line) is "true" up to letter case and surrounding
    white space, and a second line with a colon follows, whose second piece,
    trimmed, is the reason returned.  A failed call, a one-line answer and
    a line without colon all leave the message to the task extraction. *)
Theorem quickAnalyzeEmail_archive (model : string → ModelReply) (email : Email) :
  shouldAutoArchive (quickAnalyzeEmail model email) = true →
  ∃ content first second rest field reasonField,
    model (quickPrompt (or_str (e_subject email) "")
                       (or_str (e_from email) "")
                       (or_str (e_body email) ""))
    = ModelContent content
    ∧ splitOn newline (trim content) = first :: second :: rest
    ∧ secondField first = Some field
    ∧ toLowerCase (trim field) = "true"
    ∧ secondField second = Some reasonField
    ∧ q_reason (quickAnalyzeEmail model email) = trim reasonField.
Proof.
  unfold quickAnalyzeEmail.
  destruct (model _) as [e|content]; [done|].
  destruct (splitOn newline (trim content)) as [|first [|second rest]] eqn:Hl;
    simpl; [done| |].
  - by destruct (secondField first).
  - destruct (secondField first) as [field|] eqn:Hf; [|done].
    destruct (secondField second) as [reasonField|] eqn:Hr; [|done].
    simpl. intros Htrue. apply String.eqb_eq in Htrue.
    by exists content, first, second, rest, field, reasonField.
Qed.

Lemma quickAnalyzeEmail_archive_witness :
  ∃ reasonField,
    q_reason
      (quickAnalyzeEmail
         (λ _, ModelContent ("ARCHIVE: True" ++ nl ++ "REASON: newsletter"))
         (mkEmail "msg-1" (Some "Weekly digest") None None))
    = trim reasonField.
Proof.
  destruct (quickAnalyzeEmail_archive
              (λ _, ModelContent ("ARCHIVE: True" ++ nl ++ "REASON: newsletter"))
              (mkEmail "msg-1" (Some "Weekly digest") None None))
    as (_ & _ & _ & _ & _ & reasonField & _ & _ & _ & _ & _ & Hreason);
    [reflexivity|].
  by exists reasonField.
Defined.

End ReplyExtras.

(** ** The deadline of a cluster *)

Module DeadlineExtras.
Import TaskService.

Lemma min_of_permutation (t t' : Z) (ts ts' : list Z) :
  t :: ts ≡ₚ t' :: ts' → fold_left Z.min ts t = fold_left Z.min ts' t'.
Proof.
  intros Hperm.
  destruct (ParentProps.fold_left_min_spec ts t) as (Hmem & Hle & Hall).
  destruct (ParentProps.fold_left_min_spec ts' t') as (Hmem' & Hle' & Hall').
  assert (∀ x, x ∈ t :: ts → (fold_left Z.min ts t ≤ x)%Z) as Hlow.
  { intros x Hx. apply elem_of_cons in Hx as [->|Hx]; [done|by apply Hall]. }
  assert (∀ x, x ∈ t' :: ts' → (fold_left Z.min ts' t' ≤ x)%Z) as Hlow'.
  { intros x Hx. apply elem_of_cons in Hx as [->|Hx]; [done|by apply Hall']. }
  assert (fold_left Z.min ts t ∈ t :: ts) as Hin.
  { apply elem_of_cons. destruct Hmem as [->|?]; [by left|by right]. }
  assert (fold_left Z.min ts' t' ∈ t' :: ts') as Hin'.
  { apply elem_of_cons. destruct Hmem' as [->|?]; [by left|by right]. }
  rewrite Hperm in Hin. rewrite <- Hperm in Hin'.
  specialize (Hlow _ Hin'). specialize (Hlow' _ Hin). lia.
Qed.

(** X28. The deadline computed for a cluster does not depend on the order
    of its members. *)
Theorem getEarliestDeadline_order (DateParse : string → TimeValue)
    (tasks tasks' : list Task) :
  tasks ≡ₚ tasks' →
  getEarliestDeadline DateParse tasks = getEarliestDeadline DateParse tasks'.
Proof.
  intros Hperm. rewrite !ParentProps.getEarliestDeadline_min.
  assert (validDeadlineTimes DateParse tasks
          ≡ₚ validDeadlineTimes DateParse tasks') as Htimes.
  { unfold validDeadlineTimes. by rewrite Hperm. }
  destruct (validDeadlineTimes DateParse tasks) as [|t ts],
           (validDeadlineTimes DateParse tasks') as [|t' ts']; try done.
  - by apply Permutation_nil_cons in Htimes.
  - symmetry in Htimes. by apply Permutation_nil_cons in Htimes.
  - by rewrite (min_of_permutation t t' ts ts' Htimes).
Qed.

Lemma getEarliestDeadline_order_witness :
  getEarliestDeadline parseDateOnly (reverse Scenario.cluster)
  = Some "2024-01-05T00:00:00.000Z".
Proof.
  rewrite <- (getEarliestDeadline_order parseDateOnly Scenario.cluster).
  - vm_compute. reflexivity.
  - by rewrite reverse_Permutation.
Defined.

End DeadlineExtras.

(** ** Normalized descriptions *)

Module NormalizeExtras.
Import AIService.

Lemma isSpace_lowerChar (c : ascii) : isSpace (lowerChar c) = isSpace c.
Proof. destruct c as [[] [] [] [] [] [] [] []]; reflexivity. Qed.

Lemma lowerChar_idemp (c : ascii) : lowerChar (lowerChar c) = lowerChar c.
Proof. destruct c as [[] [] [] [] [] [] [] []]; reflexivity. Qed.

Lemma toLowerCase_idemp (s : string) :
  toLowerCase (toLowerCase s) = toLowerCase s.
Proof.
  induction s as [|c r IH]; [done|]. simpl. by rewrite lowerChar_idemp, IH.
Qed.

Lemma toLowerCase_trimStart (s : string) :
  toLowerCase (trimStart s) = trimStart (toLowerCase s).
Proof.
  induction s as [|c r IH]; [done|]. simpl. rewrite isSpace_lowerChar.
  by destruct (isSpace c).
Qed.

Lemma toLowerCase_trimEnd (s : string) :
  toLowerCase (trimEnd s) = trimEnd (toLowerCase s).
Proof.
  induction s as [|c r IH]; [done|]. simpl.
  rewrite <- IH, isSpace_lowerChar.
  destruct (trimEnd r); simpl; [by destruct (isSpace c)|done].
Qed.

Lemma toLowerCase_collapse (inRun : bool) (s : string) :
  toLowerCase (collapseFrom inRun s) = collapseFrom inRun (toLowerCase s).
Proof.
  revert inRun. induction s as [|c r IH]; intros inRun; [done|].
  simpl. rewrite isSpace_lowerChar.
  destruct (isSpace c), inRun; simpl; by rewrite IH.
Qed.

Lemma collapse_idemp (inRun : bool) (s : string) :
  collapseFrom inRun (collapseFrom inRun s) = collapseFrom inRun s.
Proof.
  revert inRun. induction s as [|c r IH]; intros inRun; [done|].
  simpl. destruct (isSpace c) eqn:Hc.
  - destruct inRun; [apply IH|]. simpl. by rewrite IH.
  - simpl. by rewrite Hc, IH.
Qed.

(** Strings without white space at the end. *)
Lemma trimEnd_idemp (s : string) : trimEnd (trimEnd s) = trimEnd s.
Proof.
  induction s as [|c r IH]; [done|]. simpl.
  destruct (trimEnd r) as [|c' r'] eqn:Hr.
  - destruct (isSpace c) eqn:Hc; [done|]. simpl. by rewrite Hc.
  - simpl in *. by rewrite IH.
Qed.

Lemma collapse_nonempty (inRun : bool) (s : string) :
  trimEnd s = s → s ≠ "" → collapseFrom inRun s ≠ "".
Proof.
  revert inRun. induction s as [|c r IH]; intros inRun Hs Hne; [done|].
  simpl in *. destruct (isSpace c) eqn:Hc; [|done].
  destruct (trimEnd r) as [|c' r'] eqn:Hr; [done|].
  injection Hs as Hs. destruct inRun; [|done].
  apply IH; [exact Hs|by rewrite <- Hs].
Qed.

Lemma trimEnd_collapse (inRun : bool) (s : string) :
  trimEnd s = s → trimEnd (collapseFrom inRun s) = collapseFrom inRun s.
Proof.
  revert inRun. induction s as [|c r IH]; intros inRun Hs; [done|].
  simpl in Hs.
  assert (trimEnd r = r) as Hr.
  { destruct (trimEnd r) as [|c' r'] eqn:Hr.
    - destruct (isSpace c); [done|]. by injection Hs as <-.
    - by injection Hs as <-. }
  assert (isSpace c = true → r ≠ "") as Hrest.
  { intros Hc ->. simpl in Hs. by rewrite Hc in Hs. }
  simpl. destruct (isSpace c) eqn:Hc.
  - destruct inRun; [by apply IH|].
    simpl. rewrite (IH true Hr).
    pose proof (collapse_nonempty true r Hr (Hrest eq_refl)) as Hne.
    by destruct (collapseFrom true r).
  - simpl. rewrite (IH false Hr), Hc. by destruct (collapseFrom false r).
Qed.

Lemma trimStart_collapse (s : string) :
  trimStart s = s → trimStart (collapseFrom false s) = collapseFrom false s.
Proof.
  destruct s as [|c r]; [done|]. simpl.
  destruct (isSpace c) eqn:Hc; [|by simpl; rewrite Hc].
  intros Hs. exfalso.
  assert (∀ x, String.length (trimStart x) ≤ String.length x)%nat as Hlen.
  { induction x as [|c' x IH]; [done|]. simpl. destruct (isSpace c'); simpl; lia. }
  specialize (Hlen r). rewrite Hs in Hlen. simpl in Hlen. lia.
Qed.

Lemma trimStart_trimEnd_tidy (s : string) :
  trimStart s = s → trimStart (trimEnd s) = trimEnd s.
Proof.
  destruct s as [|c r]; [done|]. simpl.
  destruct (isSpace c) eqn:Hc.
  - intros Hs. exfalso.
    assert (∀ x, String.length (trimStart x) ≤ String.length x)%nat as Hlen.
    { induction x as [|c' x IH]; [done|]. simpl. destruct (isSpace c'); simpl; lia. }
    specialize (Hlen r). rewrite Hs in Hlen. simpl in Hlen. lia.
  - intros _. destruct (trimEnd r); simpl; by rewrite Hc.
Qed.

Lemma trimStart_idemp (s : string) : trimStart (trimStart s) = trimStart s.
Proof.
  induction s as [|c r IH]; [done|]. simpl.
  destruct (isSpace c) eqn:Hc; [done|]. simpl. by rewrite Hc.
Qed.

(** X29. Normalizing a description twice gives what normalizing it once
    gives, so the identifier generated from a normalized description is that
    of the original. *)
Theorem normalizedDescription_idemp (sha256_hex : string → string)
    (task : IdInput) :
  normalizedDescription (normalizedDescription (in_description task))
  = normalizedDescription (in_description task)
  ∧ generateTaskId sha256_hex
      {| in_description := normalizedDescription (in_description task);
         in_threadId := in_threadId task;
         in_deadline := in_deadline task;
         in_priority := in_priority task |}
    = generateTaskId sha256_hex task.
Proof.
  assert (∀ d, normalizedDescription (normalizedDescription d)
               = normalizedDescription d) as Hidemp.
  { intros d. unfold normalizedDescription, collapseWhitespace, trim.
    set (y := trimEnd (trimStart (toLowerCase d))).
    assert (toLowerCase (collapseFrom false y) = collapseFrom false y) as ->.
    { unfold y. by rewrite toLowerCase_collapse, toLowerCase_trimEnd,
                           toLowerCase_trimStart, toLowerCase_idemp. }
    assert (trimStart y = y) as Hstart.
    { unfold y. apply trimStart_trimEnd_tidy, trimStart_idemp. }
    assert (trimEnd y = y) as Hend by apply trimEnd_idemp.
    rewrite (trimStart_collapse y Hstart), (trimEnd_collapse false y Hend).
    apply collapse_idemp. }
  split; [apply Hidemp|].
  unfold generateTaskId. simpl. by rewrite Hidemp.
Qed.

End NormalizeExtras.
